(** * Memory Scramble board (src/src/board.ts)

    A shallow embedding of the [Board] class: the card grid, its
    constructor, [checkRep], [flip], [look] and [map].

    Conventions of the embedding.
    - A JavaScript [number] used as a dimension, a coordinate or an array
      index is an integer of [Z]; array lengths are compared with the
      [rows]/[cols] fields in [Z].
    - [this.board] is a [list (list Card)].  Every card object and every
      row array is allocated once, by the constructor, and is referenced
      from exactly one slot of the grid, so an assignment through a
      reference ([card.state = ...]) is the replacement of that slot.
    - A method is a function from the receiver's state to a completion
      (normal return or thrown [Error]) and the state it leaves behind, so
      that a [throw] after a mutation keeps the mutation.
    - [Array.prototype.sort] with the random comparator is an unknown
      rearrangement of the array: the constructor takes it as an argument. *)

From stdpp Require Import base option list sets strings.

Set Warnings "-clear-no-such-hyp".

Local Open Scope string_scope.
Local Open Scope list_scope.
Local Open Scope Z_scope.

(** ** Data model *)

Inductive CardState : Set := face_down | revealed | matched.

#[global] Instance CardState_eq_dec : EqDecision CardState.
Proof. solve_decision. Defined.

(** [interface Card]: an absent or [undefined] [controlledBy] is [None]. *)
Record Card : Set := mkCard {
  value : string;
  state : CardState;
  controlledBy : option string
}.

(** [interface PublicCard]: a [null] value is [None]. *)
Record PublicCard : Set := mkPublicCard {
  pub_value : option string;
  pub_state : CardState;
  pub_controlledBy : option string
}.

#[global] Instance PublicCard_eq_dec : EqDecision PublicCard.
Proof. solve_decision. Defined.

(** The private fields of [class Board]. *)
Record Board : Set := mkBoard {
  rows : Z;
  cols : Z;
  board : list (list Card)
}.

(** The object returned by [flip]. *)
Record FlipResult : Set := mkFlipResult {
  success : bool;
  message : string;
  boardView : list (list PublicCard)
}.

(** An entry of the local array [revealed] of [flip]. *)
Record Revealed : Set := mkRevealed {
  rev_r : Z;
  rev_c : Z;
  rev_value : string
}.

(** ** Methods: state passing with exceptions *)

Inductive completion (A : Type) : Type :=
| Normal (a : A)
| Thrown (msg : string).
Arguments Normal {A} a.
Arguments Thrown {A} msg.

Definition Method (A : Type) : Type := Board → completion A * Board.

#[global] Instance Method_ret : MRet Method := λ A a b, (Normal a, b).

#[global] Instance Method_bind : MBind Method := λ A B k m b,
  match m b with
  | (Normal a, b') => k a b'
  | (Thrown msg, b') => (Thrown msg, b')
  end.

Definition this : Method Board := λ b, (Normal b, b).

Definition throw {A : Type} (msg : string) : Method A := λ b, (Thrown msg, b).

(** [for (const x of xs) body(x)]. *)
Definition for_of {A : Type} (xs : list A) (body : A → Method unit) : Method unit :=
  foldr (λ x rest, body x ;; rest) (mret ()) xs.

(** ** Arrays *)

(** [arr[i]]: [undefined] ([None]) below 0 and from [arr.length] on. *)
Definition at_index {A : Type} (arr : list A) (i : Z) : option A :=
  if decide (0 ≤ i) then arr !! Z.to_nat i else None.

(** The card object stored at [this.board[i][j]], when both lookups succeed. *)
Definition cell (b : Board) (i j : Z) : option Card :=
  row ← at_index (board b) i; at_index row j.

Definition view_cell (v : list (list PublicCard)) (i j : Z) : option PublicCard :=
  row ← at_index v i; at_index row j.

(** ** Constructor and [checkRep] *)

(** [v || ''] for [v] a string or [undefined]. *)
Definition or_empty (v : option string) : string :=
  match v with
  | Some s => if decide (s = "") then "" else s
  | None => ""
  end.

(** The body of the inner loop of the constructor: one [row.push], reading
    [shuffled[idx++]].  The loop state is [row] and [idx]. *)
Definition push_card (shuffled : list string) (acc : list Card * nat) (c : Z)
  : list Card * nat :=
  (acc.1 ++ [mkCard (or_empty (shuffled !! acc.2)) face_down None], S acc.2).

(** The inner loop, on a fresh [row]. *)
Definition fill_row (shuffled : list string) (cols : Z) (idx : nat)
  : list Card * nat :=
  foldl (push_card shuffled) ([], idx) (seqZ 0 cols).

(** The body of the outer loop: fill a row and push it onto [this.board].
    The loop state is [this.board] and [idx]. *)
Definition push_row (shuffled : list string) (cols : Z)
    (acc : list (list Card) * nat) (r : Z) : list (list Card) * nat :=
  let filled := fill_row shuffled cols acc.2 in
  (acc.1 ++ [filled.1], filled.2).

Definition fill_board (shuffled : list string) (rows cols : Z)
  : list (list Card) * nat :=
  foldl (push_row shuffled cols) ([], 0%nat) (seqZ 0 rows).

(** [checkRep()]: the first failing test throws. *)
Definition checkRep : Method unit :=
  b ← this;
  if decide (Z.of_nat (length (board b)) ≠ rows b)
  then throw "Invalid row count"
  else for_of (board b) (λ row,
         if decide (Z.of_nat (length row) ≠ cols b)
         then throw "Invalid column count"
         else mret ()).

(** [new Board(rows, cols, cards)]; [sort] is what
    [shuffled.sort(() => Math.random() - 0.5)] does to the copy of [cards]. *)
Definition Board_new (sort : list string → list string)
    (rows cols : Z) (cards : list string) : completion Board :=
  let shuffled := sort cards in
  let b := mkBoard rows cols (fill_board shuffled rows cols).1 in
  match checkRep b with
  | (Normal _, b') => Normal b'
  | (Thrown msg, _) => Thrown msg
  end.

(** A rearrangement: the result holds the same values, each as often. *)
Definition rearranges (sort : list string → list string) : Prop :=
  ∀ l, sort l ≡ₚ l.

(** ** [look] and [map] *)

(** The callback of [look].  The test [!card] never succeeds: every slot of
    the grid holds an object. *)
Definition look_card (player : string) (card : Card) : PublicCard :=
  if decide (state card = matched)
  then mkPublicCard (Some (value card)) matched None
  else if decide (state card = revealed ∧ controlledBy card = Some player)
       then mkPublicCard (Some (value card)) revealed (Some player)
       else mkPublicCard None face_down None.

Definition look (player : string) : Method (list (list PublicCard)) :=
  b ← this;
  mret (fmap (M := list) (fmap (M := list) (look_card player)) (board b)).

(** The callback of [map]. *)
Definition map_card (card : Card) : PublicCard :=
  if decide (state card = matched ∨ state card = revealed)
  then mkPublicCard (Some (value card)) (state card) None
  else mkPublicCard None face_down None.

Definition map : Method (list (list PublicCard)) :=
  b ← this;
  mret (fmap (M := list) (fmap (M := list) map_card) (board b)).

(** ** [flip] *)

(** Assignment to the fields of the card object found at [rowArr[c]], where
    [rowArr] was found at [this.board[r]]. *)
Definition write_card (r c : Z) (rowArr : list Card) (card : Card) : Method unit :=
  λ b, (Normal (),
        mkBoard (rows b) (cols b)
                (<[Z.to_nat r := <[Z.to_nat c := card]> rowArr]> (board b))).

(** The scan of [flip]: the player's currently revealed cards, row by row. *)
Definition scan_row (player : string) (rr : Z) (checkRow : list Card) (ncols : Z)
  : list Revealed :=
  cc ← seqZ 0 ncols;
  match at_index checkRow cc with
  | Some check =>
      if decide (state check = revealed ∧ controlledBy check = Some player)
      then [mkRevealed rr cc (value check)]
      else []
  | None => []
  end.

Definition scan_grid (player : string) (b : Board) : list Revealed :=
  rr ← seqZ 0 (rows b);
  match at_index (board b) rr with
  | Some checkRow => scan_row player rr checkRow (cols b)
  | None => []
  end.

Definition scan (player : string) : Method (list Revealed) :=
  b ← this; mret (scan_grid player b).

(** The body of the two [for (const rc of revealed)] loops, which differ in
    the state they assign. *)
Definition settle (st : CardState) (rc : Revealed) : Method unit :=
  b ← this;
  match at_index (board b) (rev_r rc) with
  | None => mret ()
  | Some row =>
      match at_index row (rev_c rc) with
      | None => mret ()
      | Some card =>
          write_card (rev_r rc) (rev_c rc) row (mkCard (value card) st None)
      end
  end.

(** [card1 && card2 && card1.value === card2.value]. *)
Definition same_value (card1 card2 : option Revealed) : bool :=
  match card1, card2 with
  | Some c1, Some c2 => bool_decide (rev_value c1 = rev_value c2)
  | _, _ => false
  end.

Definition flip (row col : Z) (player : string) : Method FlipResult :=
  let r := row - 1 in
  let c := col - 1 in
  b ← this;
  match at_index (board b) r with
  | None =>
      v ← look player; mret (mkFlipResult false "Row out of bounds" v)
  | Some rowArr =>
      match at_index rowArr c with
      | None =>
          v ← look player; mret (mkFlipResult false "Column out of bounds" v)
      | Some card =>
          if decide (state card ≠ face_down)
          then v ← look player; mret (mkFlipResult false "Cannot flip" v)
          else
            write_card r c rowArr (mkCard (value card) revealed (Some player));;
            found ← scan player;
            if decide (length found = 2%nat)
            then
              if same_value (found !! 0%nat) (found !! 1%nat)
              then
                for_of found (settle matched);;
                checkRep;;
                v ← look player; mret (mkFlipResult true "Match!" v)
              else
                for_of found (settle face_down);;
                checkRep;;
                v ← look player; mret (mkFlipResult true "Not a match." v)
            else
              checkRep;;
              v ← look player; mret (mkFlipResult true "Card flipped" v)
      end
  end.

(** ** Derived notions used in the statements *)

(** The representation invariant that [checkRep] tests. *)
Definition rep_ok (b : Board) : Prop :=
  Z.of_nat (length (board b)) = rows b
  ∧ Forall (λ row : list Card, Z.of_nat (length row) = cols b) (board b).

(** The lengths of the grid's rows, in order. *)
Definition shape (b : Board) : list nat := length <$> board b.

(** What [look] and [map] return. *)
Definition look_view (player : string) (b : Board) : list (list PublicCard) :=
  fmap (M := list) (fmap (M := list) (look_card player)) (board b).

Definition map_view (b : Board) : list (list PublicCard) :=
  fmap (M := list) (fmap (M := list) map_card) (board b).

(** The board between step 3 of [flip(row, col, player)] and the scan, with
    [r = row - 1] and [c = col - 1]. *)
Definition revealed_board (b : Board) (r c : Z) (player : string) : Board :=
  match at_index (board b) r with
  | Some rowArr =>
      match at_index rowArr c with
      | Some card =>
          (write_card r c rowArr (mkCard (value card) revealed (Some player)) b).2
      | None => b
      end
  | None => b
  end.

(** The grid position of a scan entry. *)
Definition pos (rc : Revealed) : Z * Z := (rev_r rc, rev_c rc).

(** The board after a [for (const rc of revealed)] loop. *)
Definition settled_board (st : CardState) (found : list Revealed) (b : Board) : Board :=
  (for_of found (settle st) b).2.

(** The controller invariant of a card. *)
Definition controller_ok (card : Card) : Prop :=
  is_Some (controlledBy card) ↔ state card = revealed.

Definition controller_inv (b : Board) : Prop :=
  Forall (Forall controller_ok) (board b).

(** Boards that exist: built by the constructor, then flipped any number of
    times (whatever each call returns or throws). *)
Inductive reachable : Board → Prop :=
| reach_new sort nrows ncols cards b :
    rearranges sort →
    Board_new sort nrows ncols cards = Normal b →
    reachable b
| reach_flip b row col player :
    reachable b →
    reachable (flip row col player b).2.

(** The values of the cells in row-major order. *)
Definition cell_values (b : Board) : list string := value <$> concat (board b).

(** The cards that [player] holds: revealed and controlled by [player]. *)
Definition held_by (player : string) (card : Card) : Prop :=
  state card = revealed ∧ controlledBy card = Some player.

(** What a resolution loop over [found] does to the card at [(i, j)]. *)
Definition settle_card (st : CardState) (found : list Revealed) (i j : Z)
    (card : Card) : Card :=
  if decide ((i, j) ∈ pos <$> found) then mkCard (value card) st None else card.

(** The card pushed when [idx] has the value [k]. *)
Definition fresh_card (shuffled : list string) (k : nat) : Card :=
  mkCard (or_empty (shuffled !! k)) face_down None.

(** ** Example boards *)

Definition face_down_card (v : string) : Card := mkCard v face_down None.

(** A 2 x 1 board holding the pair A, A. *)
Definition board_AA : Board :=
  mkBoard 2 1 [[face_down_card "A"]; [face_down_card "A"]].

(** A 1 x 2 board holding A and B. *)
Definition board_AB : Board :=
  mkBoard 1 2 [[face_down_card "A"; face_down_card "B"]].

(** The same boards once player p1 has turned up the first card. *)
Definition board_AA_1 : Board := (flip 1 1 "p1" board_AA).2.
Definition board_AB_1 : Board := (flip 1 1 "p1" board_AB).2.

(** The board of the pair once p1 has turned up both cards. *)
Definition board_AA_2 : Board := (flip 2 1 "p1" board_AA_1).2.

(** ** The remaining methods and the command layer *)

(** [isValid(r, c)], on 0-based coordinates. *)
Definition isValid (r c : Z) : Method bool :=
  b ← this;
  mret ((0 <=? r) && (r <? rows b) && (0 <=? c) && (c <? cols b)).

(** What the command [map] does to a card that it reaches: a matched card
    is skipped, any other card gets the value [f(card.value)]. *)
Definition replaced (f : string → string) (card : Card) : Card :=
  if decide (state card = matched) then card
  else mkCard (f (value card)) (state card) (controlledBy card).

(** The exported functions that take the board as an argument.  The
    transform [f] of [map] is a function of the card value (the source
    calls it a mathematical function), and a call runs to its end with
    no other operation on the board in between. *)
Module Commands.

(** The body of the two loops of [map] at the indices [r] and [c]. *)
Definition map_cell (f : string → string) (r c : Z) : Method unit :=
  b ← this;
  match at_index (board b) r with
  | None => mret ()
  | Some rowArr =>
      match at_index rowArr c with
      | None => mret ()
      | Some card =>
          if decide (state card = matched) then mret ()
          else write_card r c rowArr
                 (mkCard (f (value card)) (state card) (controlledBy card))
      end
  end.

(** [map(board, playerId, f)].  The bounds [board.rows] and [board.cols]
    are not assigned by the loops, so they are read once. *)
Definition map (playerId : string) (f : string → string)
  : Method (list (list PublicCard)) :=
  b ← this;
  for_of (seqZ 0 (rows b)) (λ r,
    for_of (seqZ 0 (cols b)) (λ c, map_cell f r c));;
  look playerId.

Definition watch (playerId : string) : Method (list (list PublicCard)) :=
  look playerId.

Definition flip (playerId : string) (row column : Z) : Method FlipResult :=
  flip row column playerId.

Definition look (playerId : string) : Method (list (list PublicCard)) :=
  look playerId.

End Commands.

(** The board with every card replaced as the command [map] does. *)
Definition mapped (f : string → string) (b : Board) : Board :=
  mkBoard (rows b) (cols b)
          (fmap (M := list) (fmap (M := list) (replaced f)) (board b)).

(** The scan entry of a card whose value was replaced. *)
Definition mapped_entry (f : string → string) (rc : Revealed) : Revealed :=
  mkRevealed (rev_r rc) (rev_c rc) (f (rev_value rc)).

(** [player] holds at most one card of [b]. *)
Definition holds_at_most_one (player : string) (b : Board) : Prop :=
  ∀ i j i' j' card card',
    cell b i j = Some card → held_by player card →
    cell b i' j' = Some card' → held_by player card' →
    i = i' ∧ j = j'.

(** ** Arrays and cells *)

Section arrays.
Context {A : Type}.
Implicit Types (arr : list A) (i j : Z).

Lemma at_index_Some arr i x :
  at_index arr i = Some x ↔ 0 ≤ i ∧ arr !! Z.to_nat i = Some x.
Proof. unfold at_index. case_decide; naive_solver. Qed.

Lemma at_index_is_Some arr i :
  is_Some (at_index arr i) ↔ 0 ≤ i < Z.of_nat (length arr).
Proof.
  unfold at_index. case_decide.
  - rewrite lookup_lt_is_Some. lia.
  - split; [intros [? ?]; done | lia].
Qed.

Lemma at_index_None arr i :
  at_index arr i = None ↔ i < 0 ∨ Z.of_nat (length arr) ≤ i.
Proof.
  rewrite eq_None_not_Some, at_index_is_Some. lia.
Qed.

Lemma at_index_insert arr i j x :
  0 ≤ i < Z.of_nat (length arr) →
  at_index (<[Z.to_nat i := x]> arr) j = if decide (j = i) then Some x else at_index arr j.
Proof.
  intros Hi. unfold at_index. case_decide as Hj.
  - case_decide as Hji.
    + subst j. apply list_lookup_insert_eq. lia.
    + apply list_lookup_insert_ne. lia.
  - case_decide; [lia | done].
Qed.
End arrays.

Lemma at_index_fmap {A B : Type} (f : A → B) (arr : list A) (i : Z) :
  at_index (f <$> arr) i = f <$> at_index arr i.
Proof. unfold at_index. case_decide; [apply list_lookup_fmap | done]. Qed.

Lemma cell_Some b i j card :
  cell b i j = Some card ↔
  ∃ row, at_index (board b) i = Some row ∧ at_index row j = Some card.
Proof.
  unfold cell. destruct (at_index (board b) i) as [row|]; simpl; naive_solver.
Qed.

Lemma cell_in_bounds b i j :
  rep_ok b → (is_Some (cell b i j) ↔ 0 ≤ i < rows b ∧ 0 ≤ j < cols b).
Proof.
  intros [Hr Hc]. split.
  - intros [card Hcell]. apply cell_Some in Hcell as (row & Hrow & Hcard).
    assert (Hlen : Z.of_nat (length row) = cols b).
    { apply at_index_Some in Hrow as [_ Hrow].
      exact (Forall_lookup_1 _ _ _ _ Hc Hrow). }
    pose proof (proj1 (at_index_is_Some _ _) (mk_is_Some _ _ Hrow)).
    pose proof (proj1 (at_index_is_Some _ _) (mk_is_Some _ _ Hcard)).
    lia.
  - intros [Hi Hj].
    destruct (proj2 (at_index_is_Some (board b) i)) as [row Hrow]; [lia|].
    assert (Hlen : Z.of_nat (length row) = cols b).
    { apply at_index_Some in Hrow as [_ Hrow'].
      exact (Forall_lookup_1 _ _ _ _ Hc Hrow'). }
    destruct (proj2 (at_index_is_Some row j)) as [card Hcard]; [lia|].
    exists card. apply cell_Some. eauto.
Qed.

Lemma view_cell_fmap (f : Card → PublicCard) b i j :
  view_cell (fmap (M := list) (fmap (M := list) f) (board b)) i j = f <$> cell b i j.
Proof.
  unfold view_cell, cell. rewrite at_index_fmap.
  destruct (at_index (board b) i) as [row|]; simpl; [|done].
  apply at_index_fmap.
Qed.

(** A property of every card object of the grid, cell by cell. *)
Lemma grid_Forall_cell (P : Card → Prop) b :
  Forall (Forall P) (board b) ↔ ∀ i j card, cell b i j = Some card → P card.
Proof.
  split.
  - intros HP i j card Hcell. apply cell_Some in Hcell as (row & Hrow & Hcard).
    apply at_index_Some in Hrow as [_ Hrow]. apply at_index_Some in Hcard as [_ Hcard].
    exact (Forall_lookup_1 _ _ _ _ (Forall_lookup_1 _ _ _ _ HP Hrow) Hcard).
  - intros HP. apply Forall_lookup_2. intros i row Hrow.
    apply Forall_lookup_2. intros j card Hcard.
    apply (HP (Z.of_nat i) (Z.of_nat j)). apply cell_Some. exists row.
    rewrite !at_index_Some, !Nat2Z.id. split_and!; (lia || done).
Qed.

(** ** Sequencing *)

Lemma bind_Normal {A B : Type} (m : Method A) (k : A → Method B) b a b' :
  m b = (Normal a, b') → (m ≫= k) b = k a b'.
Proof. intros H. unfold mbind, Method_bind. by rewrite H. Qed.

Lemma bind_Thrown {A B : Type} (m : Method A) (k : A → Method B) b msg b' :
  m b = (Thrown msg, b') → (m ≫= k) b = (Thrown msg, b').
Proof. intros H. unfold mbind, Method_bind. by rewrite H. Qed.

(** ** [checkRep] *)

(** The loop of [checkRep] over the rows, against a column count [n]. *)
Lemma check_rows_spec (n : Z) (grid : list (list Card)) b :
  (Forall (λ row : list Card, Z.of_nat (length row) = n) grid
   ∧ for_of grid (λ row, if decide (Z.of_nat (length row) ≠ n)
                         then throw "Invalid column count" else mret ()) b
     = (Normal (), b))
  ∨ (¬ Forall (λ row : list Card, Z.of_nat (length row) = n) grid
     ∧ for_of grid (λ row, if decide (Z.of_nat (length row) ≠ n)
                           then throw "Invalid column count" else mret ()) b
       = (Thrown "Invalid column count", b)).
Proof.
  induction grid as [|row grid IH].
  - left. by split.
  - change (for_of (row :: grid) ?body) with (body row ;; for_of grid body).
    cbv beta.
    destruct (decide (Z.of_nat (length row) ≠ n)) as [Hbad|Hgood].
    + right. split; [by intros [? _]%Forall_cons|].
      by erewrite bind_Thrown by reflexivity.
    + erewrite bind_Normal by reflexivity.
      destruct IH as [[Hall Hrun]|[Hnall Hrun]].
      * left. split; [|done]. constructor; [lia | done].
      * right. split; [|done]. by intros [_ ?]%Forall_cons.
Qed.

Lemma checkRep_rep_ok b : rep_ok b → checkRep b = (Normal (), b).
Proof.
  intros [Hr Hc]. unfold checkRep. erewrite bind_Normal by reflexivity.
  rewrite decide_False by lia.
  by destruct (check_rows_spec (cols b) (board b) b) as [[_ ?]|[? _]].
Qed.

Lemma checkRep_Normal b u b' : checkRep b = (Normal u, b') → rep_ok b ∧ b' = b.
Proof.
  unfold checkRep. erewrite bind_Normal by reflexivity.
  case_decide as Hr; [done|].
  destruct (check_rows_spec (cols b) (board b) b) as [[Hall ->]|[_ ->]]; [|done].
  intros [= _ <-]. split; [|done]. split; [lia | done].
Qed.

Lemma rep_ok_shape b b' :
  rows b' = rows b → cols b' = cols b → shape b' = shape b → rep_ok b → rep_ok b'.
Proof.
  unfold rep_ok, shape. intros Hr Hc Hs [Hlen Hall]. rewrite Hr, Hc. split.
  - rewrite <- Hlen. f_equal.
    rewrite <- (length_fmap length (board b')), Hs. apply length_fmap.
  - apply Forall_lookup_2. intros i row' Hrow'.
    assert (Hi : length <$> board b' !! i = length <$> board b !! i)
      by (by rewrite <- !list_lookup_fmap, Hs).
    rewrite Hrow' in Hi. destruct (board b !! i) as [row|] eqn:Hrow; [|done].
    injection Hi as ->. exact (Forall_lookup_1 _ _ _ _ Hall Hrow).
Qed.

(** ** Writing one card *)

Section write.
Variables (b : Board) (r c : Z) (rowArr : list Card) (old new : Card).
Hypothesis Hrow : at_index (board b) r = Some rowArr.
Hypothesis Hold : at_index rowArr c = Some old.

Lemma write_card_shape : shape (write_card r c rowArr new b).2 = shape b.
Proof.
  unfold shape, write_card. simpl.
  apply at_index_Some in Hrow as [_ Hr].
  rewrite list_fmap_insert, length_insert.
  apply list_insert_id. by rewrite list_lookup_fmap, Hr.
Qed.

Lemma write_card_cell i j :
  cell (write_card r c rowArr new b).2 i j
  = if decide (i = r ∧ j = c) then Some new else cell b i j.
Proof.
  pose proof (proj1 (at_index_is_Some _ _) (mk_is_Some _ _ Hrow)) as Hr.
  pose proof (proj1 (at_index_is_Some _ _) (mk_is_Some _ _ Hold)) as Hc.
  unfold cell, write_card. simpl.
  rewrite at_index_insert by done.
  destruct (decide (i = r)) as [->|Hne]; simpl.
  - rewrite Hrow. simpl. rewrite at_index_insert by done.
    destruct (decide (j = c)) as [->|Hne].
    + rewrite decide_True; done.
    + rewrite decide_False; [done | naive_solver].
  - rewrite decide_False; [done | naive_solver].
Qed.
End write.

Lemma revealed_board_cell b r c player card i j :
  cell b r c = Some card →
  cell (revealed_board b r c player) i j =
    if decide (i = r ∧ j = c) then Some (mkCard (value card) revealed (Some player))
    else cell b i j.
Proof.
  intros Hcell. apply cell_Some in Hcell as (rowArr & Hrow & Hcard).
  unfold revealed_board. rewrite Hrow, Hcard.
  by rewrite (write_card_cell _ _ _ _ card).
Qed.

Lemma revealed_board_frame b r c player :
  rows (revealed_board b r c player) = rows b
  ∧ cols (revealed_board b r c player) = cols b
  ∧ shape (revealed_board b r c player) = shape b.
Proof.
  unfold revealed_board.
  destruct (at_index (board b) r) as [rowArr|] eqn:Hrow; [|done].
  destruct (at_index rowArr c) as [card|] eqn:Hcard; [|done].
  split_and!; [done | done |]. by apply write_card_shape.
Qed.

(** ** The resolution loops *)

Lemma elem_of_pos_singleton i j rc :
  (i, j) ∈ pos <$> [rc] ↔ i = rev_r rc ∧ j = rev_c rc.
Proof.
  change (pos <$> [rc]) with [pos rc]. rewrite list_elem_of_singleton.
  unfold pos. naive_solver.
Qed.

Lemma settle_card_absent st rc i j card b :
  cell b i j = Some card → cell b (rev_r rc) (rev_c rc) = None →
  settle_card st [rc] i j card = card.
Proof.
  intros Hcell Hnone. unfold settle_card. case_decide as Hin; [|done].
  apply elem_of_pos_singleton in Hin as [-> ->]. congruence.
Qed.

Lemma settle_spec st rc b :
  ∃ b', settle st rc b = (Normal (), b')
    ∧ rows b' = rows b ∧ cols b' = cols b ∧ shape b' = shape b
    ∧ ∀ i j, cell b' i j = settle_card st [rc] i j <$> cell b i j.
Proof.
  destruct (cell b (rev_r rc) (rev_c rc)) as [card|] eqn:Htarget.
  - apply cell_Some in Htarget as Hfound. destruct Hfound as (row & Hrow & Hcard).
    exists (write_card (rev_r rc) (rev_c rc) row (mkCard (value card) st None) b).2.
    split_and!; try done.
    + unfold settle, mbind, Method_bind, this. by rewrite Hrow, Hcard.
    + by apply write_card_shape.
    + intros i j. rewrite (write_card_cell _ _ _ _ card) by done.
      case_decide as Hij.
      * destruct Hij as [-> ->]. rewrite Htarget. simpl. f_equal.
        unfold settle_card. rewrite decide_True; [done|].
        by apply elem_of_pos_singleton.
      * destruct (cell b i j) as [card'|]; [|done]. simpl. f_equal.
        unfold settle_card. rewrite decide_False; [done|].
        intros Hin. by apply elem_of_pos_singleton in Hin.
  - exists b. split_and!; try done.
    + unfold settle, mbind, Method_bind, this. unfold cell in Htarget.
      destruct (at_index (board b) (rev_r rc)) as [row|]; [|done].
      simpl in Htarget. by rewrite Htarget.
    + intros i j. destruct (cell b i j) as [card|] eqn:Hcell; [|done].
      simpl. f_equal. symmetry. by eapply settle_card_absent.
Qed.

Lemma settle_card_cons st rc found i j card :
  settle_card st found i j (settle_card st [rc] i j card)
  = settle_card st (rc :: found) i j card.
Proof.
  unfold settle_card. rewrite fmap_cons.
  change (pos <$> [rc]) with [pos rc].
  repeat case_decide; try done; set_solver.
Qed.

Lemma for_of_settle_spec st found b :
  for_of found (settle st) b = (Normal (), settled_board st found b)
  ∧ rows (settled_board st found b) = rows b
  ∧ cols (settled_board st found b) = cols b
  ∧ shape (settled_board st found b) = shape b
  ∧ ∀ i j, cell (settled_board st found b) i j = settle_card st found i j <$> cell b i j.
Proof.
  unfold settled_board. revert b. induction found as [|rc found IH]; intros b.
  - simpl. split_and!; try done. intros i j.
    destruct (cell b i j); [|done]. simpl. unfold settle_card.
    rewrite decide_False; [done|]. simpl. apply not_elem_of_nil.
  - destruct (settle_spec st rc b) as (b1 & Hrun & Hr1 & Hc1 & Hs1 & Hcell1).
    destruct (IH b1) as (Hrun2 & Hr2 & Hc2 & Hs2 & Hcell2).
    assert (Hstep : for_of (rc :: found) (settle st) b = for_of found (settle st) b1).
    { simpl. unfold mbind at 1, Method_bind at 1. by rewrite Hrun. }
    rewrite Hstep. split_and!; try congruence.
    intros i j. rewrite Hcell2, Hcell1.
    destruct (cell b i j) as [card|]; [|done]. simpl. f_equal.
    apply settle_card_cons.
Qed.

(** ** The scan *)

Lemma elem_of_scan_row player rr checkRow ncols rc :
  rc ∈ scan_row player rr checkRow ncols ↔
  rev_r rc = rr ∧ 0 ≤ rev_c rc < ncols
  ∧ ∃ card, at_index checkRow (rev_c rc) = Some card
            ∧ held_by player card ∧ rev_value rc = value card.
Proof.
  unfold scan_row. rewrite list_elem_of_bind. split.
  - intros (cc & Hin & Hcc). apply elem_of_seqZ in Hcc.
    destruct (at_index checkRow cc) as [check|] eqn:Hcheck;
      [|by apply not_elem_of_nil in Hin].
    case_decide as Hheld; [|by apply not_elem_of_nil in Hin].
    apply list_elem_of_singleton in Hin as ->. simpl.
    split_and!; [done | lia | lia | by exists check].
  - intros (Hr & Hc & card & Hcard & Hheld & Hv). exists (rev_c rc). split.
    + rewrite Hcard. rewrite decide_True by done.
      apply list_elem_of_singleton. destruct rc; simpl in *. congruence.
    + apply elem_of_seqZ. lia.
Qed.

Lemma elem_of_scan_grid player b rc :
  rc ∈ scan_grid player b ↔
  0 ≤ rev_r rc < rows b ∧ 0 ≤ rev_c rc < cols b
  ∧ ∃ card, cell b (rev_r rc) (rev_c rc) = Some card
            ∧ held_by player card ∧ rev_value rc = value card.
Proof.
  unfold scan_grid. rewrite list_elem_of_bind. split.
  - intros (rr & Hin & Hrr). apply elem_of_seqZ in Hrr.
    destruct (at_index (board b) rr) as [checkRow|] eqn:Hrow;
      [|by apply not_elem_of_nil in Hin].
    apply elem_of_scan_row in Hin as (-> & Hc & card & Hcard & Hheld & Hv).
    split_and!; [lia | lia | lia | lia |].
    exists card. split_and!; [|done|done]. apply cell_Some. eauto.
  - intros (Hr & Hc & card & Hcell & Hheld & Hv).
    apply cell_Some in Hcell as (row & Hrow & Hcard).
    exists (rev_r rc). split; [|apply elem_of_seqZ; lia].
    rewrite Hrow. apply elem_of_scan_row. split_and!; [done | lia | lia |].
    by exists card.
Qed.

Lemma NoDup_scan_row player rr checkRow ncols :
  NoDup (pos <$> scan_row player rr checkRow ncols).
Proof.
  unfold scan_row. apply NoDup_fmap_2_strong.
  - intros x y Hx Hy Hpos. apply elem_of_scan_row in Hx, Hy.
    destruct Hx as (_ & _ & cx & Hcx & _ & Hvx), Hy as (_ & _ & cy & Hcy & _ & Hvy).
    destruct x, y. unfold pos in Hpos. simpl in *. simplify_eq. congruence.
  - apply NoDup_bind; [| |apply NoDup_seqZ].
    + intros c1 c2 rc _ _ H1 H2.
      destruct (at_index checkRow c1); [|by apply not_elem_of_nil in H1].
      destruct (at_index checkRow c2); [|by apply not_elem_of_nil in H2].
      repeat case_decide;
        try (by apply not_elem_of_nil in H1); try (by apply not_elem_of_nil in H2).
      apply list_elem_of_singleton in H1, H2. by simplify_eq.
    + intros cc _. destruct (at_index checkRow cc); [|constructor].
      case_decide; [apply NoDup_singleton | constructor].
Qed.

Lemma NoDup_scan_grid player b : NoDup (pos <$> scan_grid player b).
Proof.
  apply NoDup_fmap_2_strong.
  - intros x y Hx Hy Hpos. apply elem_of_scan_grid in Hx, Hy.
    destruct Hx as (_ & _ & cx & Hcx & _ & Hvx), Hy as (_ & _ & cy & Hcy & _ & Hvy).
    destruct x, y. unfold pos in Hpos. simpl in *. simplify_eq. congruence.
  - unfold scan_grid. apply NoDup_bind; [| |apply NoDup_seqZ].
    + intros r1 r2 rc _ _ H1 H2.
      destruct (at_index (board b) r1); [|by apply not_elem_of_nil in H1].
      destruct (at_index (board b) r2); [|by apply not_elem_of_nil in H2].
      apply elem_of_scan_row in H1 as [<- _], H2 as [<- _]. done.
    + intros rr _. destruct (at_index (board b) rr); [|constructor].
      eapply NoDup_fmap_1. apply NoDup_scan_row.
Qed.

(** ** Running [flip] *)

Lemma look_run player b : look player b = (Normal (look_view player b), b).
Proof. done. Qed.

Lemma map_run b : map b = (Normal (map_view b), b).
Proof. done. Qed.

Lemma write_card_run r c rowArr card b :
  write_card r c rowArr card b = (Normal (), (write_card r c rowArr card b).2).
Proof. done. Qed.

Lemma scan_run player b : scan player b = (Normal (scan_grid player b), b).
Proof. done. Qed.

Lemma flip_row_undefined b row col player :
  at_index (board b) (row - 1) = None →
  flip row col player b
  = (Normal (mkFlipResult false "Row out of bounds" (look_view player b)), b).
Proof.
  intros Hrow. unfold flip. erewrite bind_Normal by reflexivity.
  rewrite Hrow. by erewrite bind_Normal by apply look_run.
Qed.

Lemma flip_card_undefined b row col player rowArr :
  at_index (board b) (row - 1) = Some rowArr →
  at_index rowArr (col - 1) = None →
  flip row col player b
  = (Normal (mkFlipResult false "Column out of bounds" (look_view player b)), b).
Proof.
  intros Hrow Hcard. unfold flip. erewrite bind_Normal by reflexivity.
  rewrite Hrow, Hcard. by erewrite bind_Normal by apply look_run.
Qed.

Lemma flip_cannot b row col player card :
  cell b (row - 1) (col - 1) = Some card → state card ≠ face_down →
  flip row col player b
  = (Normal (mkFlipResult false "Cannot flip" (look_view player b)), b).
Proof.
  intros Hcell Hstate. apply cell_Some in Hcell as (rowArr & Hrow & Hcard).
  unfold flip. erewrite bind_Normal by reflexivity.
  rewrite Hrow, Hcard. rewrite decide_True by done.
  by erewrite bind_Normal by apply look_run.
Qed.

(** The three successful ways out of [flip], on a board whose shape is right. *)
Lemma flip_face_down b row col player card :
  rep_ok b → cell b (row - 1) (col - 1) = Some card → state card = face_down →
  let b1 := revealed_board b (row - 1) (col - 1) player in
  let found := scan_grid player b1 in
  flip row col player b =
    if decide (length found = 2%nat) then
      if same_value (found !! 0%nat) (found !! 1%nat) then
        (Normal (mkFlipResult true "Match!"
                   (look_view player (settled_board matched found b1))),
         settled_board matched found b1)
      else
        (Normal (mkFlipResult true "Not a match."
                   (look_view player (settled_board face_down found b1))),
         settled_board face_down found b1)
    else (Normal (mkFlipResult true "Card flipped" (look_view player b1)), b1).
Proof.
  intros Hok Hcell Hdown b1 found.
  pose proof (revealed_board_frame b (row - 1) (col - 1) player) as (Hr1 & Hc1 & Hs1).
  fold b1 in Hr1, Hc1, Hs1.
  assert (Hok1 : rep_ok b1) by (by eapply rep_ok_shape).
  apply cell_Some in Hcell as (rowArr & Hrow & Hcard).
  assert (Hb1 : b1 = (write_card (row - 1) (col - 1) rowArr
                        (mkCard (value card) revealed (Some player)) b).2).
  { unfold b1, revealed_board. by rewrite Hrow, Hcard. }
  unfold flip. erewrite bind_Normal by reflexivity.
  rewrite Hrow, Hcard. rewrite decide_False by (rewrite Hdown; naive_solver).
  erewrite bind_Normal by apply write_card_run. rewrite <- Hb1.
  erewrite bind_Normal by apply scan_run. fold found.
  destruct (for_of_settle_spec matched found b1) as (Hm & Hmr & Hmc & Hms & _).
  destruct (for_of_settle_spec face_down found b1) as (Hd & Hdr & Hdc & Hds & _).
  case_decide; [destruct (same_value _ _)|].
  - erewrite bind_Normal by apply Hm.
    erewrite bind_Normal by (apply checkRep_rep_ok; by eapply rep_ok_shape).
    by erewrite bind_Normal by apply look_run.
  - erewrite bind_Normal by apply Hd.
    erewrite bind_Normal by (apply checkRep_rep_ok; by eapply rep_ok_shape).
    by erewrite bind_Normal by apply look_run.
  - erewrite bind_Normal by (by apply checkRep_rep_ok).
    by erewrite bind_Normal by apply look_run.
Qed.

(** The target of a successful flip is in the scan that follows. *)
Lemma target_in_scan b r c player card :
  rep_ok b → cell b r c = Some card →
  mkRevealed r c (value card) ∈ scan_grid player (revealed_board b r c player).
Proof.
  intros Hok Hcell.
  pose proof (proj1 (cell_in_bounds b r c Hok) (mk_is_Some _ _ Hcell)) as [Hr Hc].
  pose proof (revealed_board_frame b r c player) as (Hr1 & Hc1 & _).
  apply elem_of_scan_grid. simpl. rewrite Hr1, Hc1. split_and!; try lia.
  exists (mkCard (value card) revealed (Some player)). split; [|done].
  rewrite (revealed_board_cell _ _ _ _ card) by done. by rewrite decide_True.
Qed.

(** Before the target is turned up, the player holds one card fewer. *)
Lemma scan_grid_revealed_board b r c player card :
  rep_ok b → cell b r c = Some card → state card = face_down →
  pos <$> scan_grid player (revealed_board b r c player)
  ≡ₚ (r, c) :: (pos <$> scan_grid player b).
Proof.
  intros Hok Hcell Hdown.
  pose proof (revealed_board_frame b r c player) as (Hr1 & Hc1 & _).
  apply NoDup_Permutation.
  - apply NoDup_scan_grid.
  - constructor; [|apply NoDup_scan_grid].
    intros Hin. apply list_elem_of_fmap in Hin as (rc & Hpos & Hin).
    apply elem_of_scan_grid in Hin as (_ & _ & card' & Hcell' & [Hst _] & _).
    injection Hpos as -> ->. congruence.
  - intros [i j]. rewrite elem_of_cons, !list_elem_of_fmap. split.
    + intros (rc & Hpos & Hin). injection Hpos as -> ->.
      apply elem_of_scan_grid in Hin as (Hi & Hj & card' & Hcell' & Hheld & Hv).
      rewrite (revealed_board_cell _ _ _ _ card) in Hcell' by done.
      case_decide as Hij; [left; f_equal; naive_solver|].
      right. exists rc. split; [done|]. apply elem_of_scan_grid.
      rewrite <- Hr1, <- Hc1. split_and!; try lia. by exists card'.
    + intros [Heq|(rc & Hpos & Hin)].
      * injection Heq as -> ->. eexists. split; [|by eapply target_in_scan]. done.
      * injection Hpos as -> ->.
        apply elem_of_scan_grid in Hin as (Hi & Hj & card' & Hcell' & Hheld & Hv).
        exists rc. split; [done|]. apply elem_of_scan_grid.
        rewrite Hr1, Hc1. split_and!; try lia. exists card'. split; [|done].
        rewrite (revealed_board_cell _ _ _ _ card) by done.
        rewrite decide_False; [done|]. intros [Hi' Hj'].
        rewrite Hi', Hj' in Hcell'. destruct Hheld as [Hst _]. congruence.
Qed.

Lemma length_scan_grid_revealed_board b r c player card :
  rep_ok b → cell b r c = Some card → state card = face_down →
  length (scan_grid player (revealed_board b r c player))
  = S (length (scan_grid player b)).
Proof.
  intros Hok Hcell Hdown.
  rewrite <- (length_fmap pos (scan_grid player (revealed_board _ _ _ _))).
  rewrite (scan_grid_revealed_board _ _ _ _ card) by done.
  simpl. by rewrite length_fmap.
Qed.

(** ** The constructor's loops *)

Lemma or_empty_default v : or_empty v = default "" v.
Proof. destruct v as [s|]; [|done]. simpl. by case_decide. Qed.

Lemma fill_row_loop shuffled (l : list Z) acc idx :
  foldl (push_card shuffled) (acc, idx) l
  = (acc ++ (fresh_card shuffled <$> seq idx (length l)), (idx + length l)%nat).
Proof.
  revert acc idx. induction l as [|x l IH]; intros acc idx.
  - simpl. by rewrite app_nil_r, Nat.add_0_r.
  - change (foldl (push_card shuffled) (acc, idx) (x :: l))
      with (foldl (push_card shuffled) (acc ++ [fresh_card shuffled idx], S idx) l).
    rewrite IH, <- app_assoc. simpl. f_equal. lia.
Qed.

Lemma fill_row_eq shuffled ncols idx :
  fill_row shuffled ncols idx
  = (fresh_card shuffled <$> seq idx (Z.to_nat ncols), (idx + Z.to_nat ncols)%nat).
Proof. unfold fill_row. by rewrite fill_row_loop, length_seqZ. Qed.

Lemma push_row_eq shuffled ncols acc idx r :
  push_row shuffled ncols (acc, idx) r
  = (acc ++ [fresh_card shuffled <$> seq idx (Z.to_nat ncols)],
     (idx + Z.to_nat ncols)%nat).
Proof. unfold push_row. simpl. by rewrite fill_row_eq. Qed.

Lemma fill_board_loop shuffled ncols (l : list Z) acc idx :
  length (foldl (push_row shuffled ncols) (acc, idx) l).1
  = (length acc + length l)%nat
  ∧ concat (foldl (push_row shuffled ncols) (acc, idx) l).1
    = concat acc ++ (fresh_card shuffled <$> seq idx (length l * Z.to_nat ncols))
  ∧ (Forall (λ row : list Card, length row = Z.to_nat ncols) acc →
     Forall (λ row : list Card, length row = Z.to_nat ncols)
            (foldl (push_row shuffled ncols) (acc, idx) l).1).
Proof.
  revert acc idx. induction l as [|x l IH]; intros acc idx.
  - simpl. by rewrite app_nil_r, Nat.add_0_r.
  - change (foldl (push_row shuffled ncols) (acc, idx) (x :: l))
      with (foldl (push_row shuffled ncols) (push_row shuffled ncols (acc, idx) x) l).
    rewrite push_row_eq.
    destruct (IH (acc ++ [fresh_card shuffled <$> seq idx (Z.to_nat ncols)])
                 (idx + Z.to_nat ncols)%nat) as (Hlen & Hcat & Hall).
    split_and!.
    + rewrite Hlen, length_app. simpl. lia.
    + rewrite Hcat, concat_app. simpl. rewrite app_nil_r, <- app_assoc.
      f_equal. by rewrite seq_app, fmap_app.
    + intros Hacc. apply Hall. apply Forall_app. split; [done|].
      constructor; [|constructor]. by rewrite length_fmap, length_seq.
Qed.

Lemma fill_board_spec shuffled nrows ncols :
  let grid := (fill_board shuffled nrows ncols).1 in
  length grid = Z.to_nat nrows
  ∧ Forall (λ row : list Card, length row = Z.to_nat ncols) grid
  ∧ concat grid
    = fresh_card shuffled <$> seq 0 (Z.to_nat nrows * Z.to_nat ncols).
Proof.
  unfold fill_board.
  destruct (fill_board_loop shuffled ncols (seqZ 0 nrows) [] 0%nat)
    as (Hlen & Hcat & Hall).
  rewrite length_seqZ in Hlen, Hcat. split_and!; [done | by apply Hall | done].
Qed.

Lemma padded_values (l : list string) (n : nat) :
  (λ k, or_empty (l !! k)) <$> seq 0 n
  = take n l ++ replicate (n - length l) "".
Proof.
  apply list_eq. intros i. rewrite list_lookup_fmap.
  destruct (decide (i < n)%nat) as [Hi|Hi].
  - rewrite lookup_seq_lt by done. simpl. rewrite or_empty_default.
    destruct (decide (i < length l)%nat) as [Hl|Hl].
    + rewrite lookup_app_l by (rewrite length_take; lia).
      rewrite lookup_take_lt by done.
      destruct (lookup_lt_is_Some_2 l i Hl) as [x ->]. done.
    + rewrite lookup_app_r by (rewrite length_take; lia).
      rewrite length_take, (lookup_ge_None_2 l i) by lia. simpl.
      symmetry. apply lookup_replicate_2. lia.
  - rewrite lookup_seq_ge by lia. simpl. symmetry. apply lookup_ge_None_2.
    rewrite length_app, length_take, length_replicate. lia.
Qed.

Lemma Board_new_grid sort nrows ncols cards b :
  Board_new sort nrows ncols cards = Normal b →
  b = mkBoard nrows ncols (fill_board (sort cards) nrows ncols).1 ∧ rep_ok b.
Proof.
  unfold Board_new. simpl.
  destruct (checkRep _) as [[u|msg] b'] eqn:Hrep; [|done].
  intros [= <-]. apply checkRep_Normal in Hrep as [Hok ->]. done.
Qed.

Lemma Board_new_succeeds sort nrows ncols cards :
  0 ≤ nrows → 0 ≤ ncols →
  Board_new sort nrows ncols cards
  = Normal (mkBoard nrows ncols (fill_board (sort cards) nrows ncols).1).
Proof.
  intros Hr Hc. unfold Board_new. simpl. rewrite checkRep_rep_ok; [done|].
  destruct (fill_board_spec (sort cards) nrows ncols) as (Hlen & Hall & _).
  split; simpl.
  - rewrite Hlen. lia.
  - eapply Forall_impl; [exact Hall|]. simpl. intros row ->. lia.
Qed.

Lemma fill_board_fresh shuffled nrows ncols :
  Forall (Forall (λ card, state card = face_down ∧ controlledBy card = None))
         (fill_board shuffled nrows ncols).1.
Proof.
  destruct (fill_board_spec shuffled nrows ncols) as (_ & _ & Hcat).
  apply Forall_concat. rewrite Hcat. apply Forall_fmap, Forall_forall. done.
Qed.

(** ** Invariants of reachable boards *)

Lemma controller_ok_fresh card :
  state card = face_down ∧ controlledBy card = None → controller_ok card.
Proof.
  intros [Hs Hc]. unfold controller_ok. rewrite Hs, Hc. split; [|done].
  intros [? ?]. done.
Qed.

Lemma Board_new_controller_inv sort nrows ncols cards b :
  Board_new sort nrows ncols cards = Normal b → controller_inv b.
Proof.
  intros Hnew. apply Board_new_grid in Hnew as [-> _].
  unfold controller_inv. simpl.
  eapply Forall_impl; [apply fill_board_fresh|]. simpl. intros row Hrow.
  eapply Forall_impl; [exact Hrow|]. apply controller_ok_fresh.
Qed.

Lemma revealed_board_controller_inv b r c player :
  controller_inv b → controller_inv (revealed_board b r c player).
Proof.
  unfold controller_inv. rewrite !grid_Forall_cell. intros Hinv i j card' Hcell'.
  destruct (cell b r c) as [card|] eqn:Hcell.
  - rewrite (revealed_board_cell _ _ _ _ card) in Hcell' by done.
    case_decide; [|by eapply Hinv].
    injection Hcell' as <-. unfold controller_ok. simpl. split; [done | by eexists].
  - apply (Hinv i j). rewrite <- Hcell'. f_equal.
    unfold revealed_board. unfold cell in Hcell.
    destruct (at_index (board b) r) as [rowArr|]; [|done]. simpl in Hcell.
    by rewrite Hcell.
Qed.

Lemma settled_board_controller_inv st found b :
  st ≠ revealed → controller_inv b → controller_inv (settled_board st found b).
Proof.
  intros Hst. unfold controller_inv. rewrite !grid_Forall_cell.
  intros Hinv i j card' Hcell'.
  destruct (for_of_settle_spec st found b) as (_ & _ & _ & _ & Hcells).
  rewrite Hcells in Hcell'.
  destruct (cell b i j) as [card|] eqn:Hcell; [|done].
  injection Hcell' as <-. unfold settle_card. case_decide; [|by eapply Hinv].
  unfold controller_ok. simpl. split; [intros [? ?]; done | done].
Qed.

(** The outcome of [flip] on a board whose shape is right: the board is
    left as it was, or the target was face down and one of the three
    successful ways out was taken. *)
Lemma flip_cases b row col player :
  rep_ok b →
  (∃ msg, flip row col player b
          = (Normal (mkFlipResult false msg (look_view player b)), b))
  ∨ (∃ card, cell b (row - 1) (col - 1) = Some card ∧ state card = face_down).
Proof.
  intros Hok. destruct (at_index (board b) (row - 1)) as [rowArr|] eqn:Hrow.
  2:{ left. eexists. by apply flip_row_undefined. }
  destruct (at_index rowArr (col - 1)) as [card|] eqn:Hcard.
  2:{ left. eexists. by eapply flip_card_undefined. }
  assert (Hcell : cell b (row - 1) (col - 1) = Some card) by (apply cell_Some; eauto).
  destruct (decide (state card = face_down)) as [Hdown|Hup].
  - right. by exists card.
  - left. eexists. by eapply flip_cannot.
Qed.

Lemma flip_preserves b row col player :
  rep_ok b →
  (rep_ok (flip row col player b).2)
  ∧ (controller_inv b → controller_inv (flip row col player b).2).
Proof.
  intros Hok. destruct (flip_cases b row col player Hok) as [[msg Hrun]|(card & Hcell & Hdown)].
  { by rewrite Hrun. }
  rewrite (flip_face_down _ _ _ _ card) by done.
  pose proof (revealed_board_frame b (row - 1) (col - 1) player) as (Hr1 & Hc1 & Hs1).
  set (b1 := revealed_board b (row - 1) (col - 1) player) in *.
  set (found := scan_grid player b1).
  assert (Hok1 : rep_ok b1) by (by eapply rep_ok_shape).
  destruct (for_of_settle_spec matched found b1) as (_ & Hmr & Hmc & Hms & _).
  destruct (for_of_settle_spec face_down found b1) as (_ & Hdr & Hdc & Hds & _).
  case_decide; [destruct (same_value _ _)|]; simpl.
  - split; [by eapply rep_ok_shape|]. intros Hinv.
    by apply settled_board_controller_inv, revealed_board_controller_inv.
  - split; [by eapply rep_ok_shape|]. intros Hinv.
    by apply settled_board_controller_inv, revealed_board_controller_inv.
  - split; [done|]. apply revealed_board_controller_inv.
Qed.

Lemma reachable_rep_ok b : reachable b → rep_ok b.
Proof.
  induction 1 as [sort nrows ncols cards b _ Hnew | b row col player _ IH].
  - by apply Board_new_grid in Hnew as [_ ?].
  - by apply flip_preserves.
Qed.

Lemma revealed_board_value b r c player i j :
  value <$> cell (revealed_board b r c player) i j = value <$> cell b i j.
Proof.
  destruct (cell b r c) as [card|] eqn:Hcell.
  - rewrite (revealed_board_cell _ _ _ _ card) by done.
    case_decide as Hij; [|done]. destruct Hij as [-> ->]. by rewrite Hcell.
  - f_equal. unfold revealed_board. unfold cell in Hcell.
    destruct (at_index (board b) r) as [rowArr|]; [|done]. simpl in Hcell.
    by rewrite Hcell.
Qed.

Lemma settled_board_value st found b i j :
  value <$> cell (settled_board st found b) i j = value <$> cell b i j.
Proof.
  destruct (for_of_settle_spec st found b) as (_ & _ & _ & _ & ->).
  destruct (cell b i j) as [card|]; [|done]. simpl. f_equal.
  unfold settle_card. by case_decide.
Qed.

Lemma settled_board_found st found b rc card :
  rc ∈ found → cell b (rev_r rc) (rev_c rc) = Some card →
  cell (settled_board st found b) (rev_r rc) (rev_c rc)
  = Some (mkCard (value card) st None).
Proof.
  intros Hin Hcell.
  destruct (for_of_settle_spec st found b) as (_ & _ & _ & _ & ->).
  rewrite Hcell. simpl. f_equal. unfold settle_card.
  rewrite decide_True; [done|]. apply list_elem_of_fmap. by exists rc.
Qed.

Lemma settled_board_other st found b i j :
  (i, j) ∉ pos <$> found →
  cell (settled_board st found b) i j = cell b i j.
Proof.
  intros Hnin.
  destruct (for_of_settle_spec st found b) as (_ & _ & _ & _ & ->).
  destruct (cell b i j) as [card|]; [|done]. simpl. f_equal.
  unfold settle_card. by rewrite decide_False.
Qed.

Lemma rep_ok_dec b :
  checkRep b = (Normal (), b) → rep_ok b.
Proof. intros H. by apply checkRep_Normal in H as [? _]. Qed.

(** ** Out-of-bounds and repeated flips *)

(** C3: on a well-shaped board, a flip whose row is outside [1, rows] or
    whose column is outside [1, cols] returns normally (nothing is thrown)
    with [success = false], the message "Row out of bounds" when the row is
    invalid and "Column out of bounds" otherwise, and the caller's view of
    the board; the board is left exactly as it was. *)
Theorem flip_out_of_bounds b row col player :
  rep_ok b →
  (row < 1 ∨ rows b < row) ∨ (col < 1 ∨ cols b < col) →
  look player b = (Normal (look_view player b), b)
  ∧ flip row col player b
    = (Normal (mkFlipResult false
                 (if decide (row < 1 ∨ rows b < row)
                  then "Row out of bounds" else "Column out of bounds")
                 (look_view player b)),
       b).
Proof.
  intros Hok Hout. split; [done|]. destruct Hok as [Hrows Hcols].
  case_decide as Hrow.
  - apply flip_row_undefined. apply at_index_None. lia.
  - destruct (proj2 (at_index_is_Some (board b) (row - 1))) as [rowArr HrowArr];
      [lia|].
    apply (flip_card_undefined _ _ _ _ rowArr HrowArr).
    apply at_index_None.
    apply at_index_Some in HrowArr as [_ Hlook].
    pose proof (Forall_lookup_1 _ _ _ _ Hcols Hlook) as Hlen. simpl in Hlen. lia.
Qed.

Lemma flip_out_of_bounds_witness :
  flip 0 1 "p1" board_AA
  = (Normal (mkFlipResult false "Row out of bounds"
               [[mkPublicCard None face_down None];
                [mkPublicCard None face_down None]]), board_AA)
  ∧ flip 3 1 "p1" board_AA
    = (Normal (mkFlipResult false "Row out of bounds"
                 [[mkPublicCard None face_down None];
                  [mkPublicCard None face_down None]]), board_AA)
  ∧ flip 1 2 "p1" board_AA
    = (Normal (mkFlipResult false "Column out of bounds"
                 [[mkPublicCard None face_down None];
                  [mkPublicCard None face_down None]]), board_AA).
Proof.
  assert (Hok : rep_ok board_AA) by (apply rep_ok_dec; reflexivity).
  split_and!.
  - apply (flip_out_of_bounds board_AA 0 1 "p1" Hok). simpl. lia.
  - apply (flip_out_of_bounds board_AA 3 1 "p1" Hok). simpl. lia.
  - apply (flip_out_of_bounds board_AA 1 2 "p1" Hok). simpl. lia.
Defined.

(** C4: on a well-shaped board, a flip at in-bounds coordinates whose card
    is not face down (revealed by anyone, the caller included, or matched)
    returns normally with [success = false], the message "Cannot flip" and
    the caller's view; the board is left exactly as it was. *)
Theorem flip_not_face_down b row col player :
  rep_ok b →
  1 ≤ row ≤ rows b → 1 ≤ col ≤ cols b →
  ∃ card,
    cell b (row - 1) (col - 1) = Some card
    ∧ (state card ≠ face_down →
       flip row col player b
       = (Normal (mkFlipResult false "Cannot flip" (look_view player b)), b)).
Proof.
  intros Hok Hrow Hcol.
  destruct (proj2 (cell_in_bounds b (row - 1) (col - 1) Hok)) as [card Hcell];
    [lia|].
  exists card. split; [done|]. by apply flip_cannot.
Qed.

Lemma flip_not_face_down_witness :
  flip 1 1 "p1" board_AA_1
  = (Normal (mkFlipResult false "Cannot flip"
               [[mkPublicCard (Some "A") revealed (Some "p1")];
                [mkPublicCard None face_down None]]), board_AA_1)
  ∧ flip 1 1 "p2" board_AA_1
    = (Normal (mkFlipResult false "Cannot flip"
                 [[mkPublicCard None face_down None];
                  [mkPublicCard None face_down None]]), board_AA_1).
Proof.
  assert (Hok : rep_ok board_AA_1) by (apply rep_ok_dec; reflexivity).
  split.
  - destruct (flip_not_face_down board_AA_1 1 1 "p1" Hok) as (card & Hcell & Hflip);
      [simpl; lia | simpl; lia |].
    apply Hflip. injection Hcell as <-. discriminate.
  - destruct (flip_not_face_down board_AA_1 1 1 "p2" Hok) as (card & Hcell & Hflip);
      [simpl; lia | simpl; lia |].
    apply Hflip. injection Hcell as <-. discriminate.
Defined.

(** ** Successful flips *)

(** C6: on a well-shaped board, a flip that finds a face-down card after
    which the player's active reveal set (the scan of the board with the
    target turned up) does not have exactly two entries returns
    [success = true] with the message "Card flipped" and the view of the new
    board, in which the target is revealed and controlled by the player and
    every other cell, the dimensions and the shape are as before. *)
Theorem flip_first_card b row col player card :
  rep_ok b →
  cell b (row - 1) (col - 1) = Some card → state card = face_down →
  length (scan_grid player (revealed_board b (row - 1) (col - 1) player)) ≠ 2%nat →
  ∃ b',
    flip row col player b
    = (Normal (mkFlipResult true "Card flipped" (look_view player b')), b')
    ∧ cell b' (row - 1) (col - 1) = Some (mkCard (value card) revealed (Some player))
    ∧ (∀ i j, ¬ (i = row - 1 ∧ j = col - 1) → cell b' i j = cell b i j)
    ∧ rows b' = rows b ∧ cols b' = cols b ∧ shape b' = shape b.
Proof.
  intros Hok Hcell Hdown Hlen.
  exists (revealed_board b (row - 1) (col - 1) player).
  pose proof (revealed_board_frame b (row - 1) (col - 1) player) as (Hr1 & Hc1 & Hs1).
  split_and!; try done.
  - rewrite (flip_face_down _ _ _ _ card) by done. by rewrite decide_False.
  - rewrite (revealed_board_cell _ _ _ _ card) by done. by rewrite decide_True.
  - intros i j Hij. rewrite (revealed_board_cell _ _ _ _ card) by done.
    by rewrite decide_False.
Qed.

Lemma flip_first_card_witness :
  flip 1 1 "p1" board_AB
  = (Normal (mkFlipResult true "Card flipped"
               [[mkPublicCard (Some "A") revealed (Some "p1");
                 mkPublicCard None face_down None]]),
     mkBoard 1 2 [[mkCard "A" revealed (Some "p1"); face_down_card "B"]]).
Proof.
  destruct (flip_first_card board_AB 1 1 "p1" (face_down_card "A"))
    as (b' & Hflip & _); [apply rep_ok_dec; reflexivity | reflexivity
                          | reflexivity | vm_compute; lia |].
  pose proof (f_equal snd Hflip) as Hb'. vm_compute in Hb'. subst b'.
  rewrite Hflip. reflexivity.
Defined.

(** C1: on a well-shaped board, a flip of a face-down card after which the
    player's active reveal set has exactly two entries resolves the pair.
    The two entries are distinct cells, one of them the target, and carry
    the values of their cards.  If the values are equal, both cards become
    matched with no controller and flip returns [success = true] with
    "Match!"; otherwise both become face down with no controller and flip
    returns [success = true] with "Not a match.". *)
Theorem flip_second_card b row col player card :
  rep_ok b →
  cell b (row - 1) (col - 1) = Some card → state card = face_down →
  length (scan_grid player (revealed_board b (row - 1) (col - 1) player)) = 2%nat →
  ∃ rc1 rc2 b',
    scan_grid player (revealed_board b (row - 1) (col - 1) player) = [rc1; rc2]
    ∧ pos rc1 ≠ pos rc2
    ∧ (pos rc1 = (row - 1, col - 1) ∨ pos rc2 = (row - 1, col - 1))
    ∧ value <$> cell b (rev_r rc1) (rev_c rc1) = Some (rev_value rc1)
    ∧ value <$> cell b (rev_r rc2) (rev_c rc2) = Some (rev_value rc2)
    ∧ (rev_value rc1 = rev_value rc2 →
       flip row col player b
       = (Normal (mkFlipResult true "Match!" (look_view player b')), b')
       ∧ cell b' (rev_r rc1) (rev_c rc1) = Some (mkCard (rev_value rc1) matched None)
       ∧ cell b' (rev_r rc2) (rev_c rc2) = Some (mkCard (rev_value rc2) matched None))
    ∧ (rev_value rc1 ≠ rev_value rc2 →
       flip row col player b
       = (Normal (mkFlipResult true "Not a match." (look_view player b')), b')
       ∧ cell b' (rev_r rc1) (rev_c rc1) = Some (mkCard (rev_value rc1) face_down None)
       ∧ cell b' (rev_r rc2) (rev_c rc2) = Some (mkCard (rev_value rc2) face_down None)).
Proof.
  intros Hok Hcell Hdown Hlen.
  pose proof (flip_face_down b row col player card Hok Hcell Hdown) as Hflip.
  pose proof (target_in_scan b _ _ player card Hok Hcell) as Htarget.
  pose proof (NoDup_scan_grid player (revealed_board b (row - 1) (col - 1) player))
    as Hnodup.
  pose proof (λ rc, proj1 (elem_of_scan_grid player
                (revealed_board b (row - 1) (col - 1) player) rc)) as Hscan.
  set (b1 := revealed_board b (row - 1) (col - 1) player) in *.
  simpl in Hflip. rewrite decide_True in Hflip by done.
  destruct (scan_grid player b1) as [|rc1 [|rc2 [|rc3 rest]]] eqn:Hfound; try done.
  destruct (Hscan rc1) as (_ & _ & c1 & Hc1 & _ & Hv1); [set_solver|].
  destruct (Hscan rc2) as (_ & _ & c2 & Hc2 & _ & Hv2); [set_solver|].
  simpl in Hflip.
  exists rc1, rc2,
    (settled_board (if decide (rev_value rc1 = rev_value rc2) then matched else face_down)
                   [rc1; rc2] b1).
  split_and!.
  - done.
  - change (NoDup [pos rc1; pos rc2]) in Hnodup.
    apply NoDup_cons in Hnodup as [Hnin _].
    intros Heq. apply Hnin. rewrite Heq. apply list_elem_of_here.
  - apply elem_of_cons in Htarget as [<-|Htarget]; [by left|].
    apply list_elem_of_singleton in Htarget as <-. by right.
  - unfold b1 in Hc1.
    rewrite <- (revealed_board_value b (row - 1) (col - 1) player), Hc1.
    simpl. by rewrite Hv1.
  - unfold b1 in Hc2.
    rewrite <- (revealed_board_value b (row - 1) (col - 1) player), Hc2.
    simpl. by rewrite Hv2.
  - intros Heq. rewrite decide_True by done.
    rewrite bool_decide_eq_true_2 in Hflip by done. split_and!; [done | |].
    + rewrite Hv1. apply settled_board_found; [set_solver | done].
    + rewrite Hv2. apply settled_board_found; [set_solver | done].
  - intros Hne. rewrite decide_False by done.
    rewrite bool_decide_eq_false_2 in Hflip by done. split_and!; [done | |].
    + rewrite Hv1. apply settled_board_found; [set_solver | done].
    + rewrite Hv2. apply settled_board_found; [set_solver | done].
Qed.

Lemma flip_second_card_witness :
  flip 2 1 "p1" board_AA_1
  = (Normal (mkFlipResult true "Match!"
               [[mkPublicCard (Some "A") matched None];
                [mkPublicCard (Some "A") matched None]]),
     mkBoard 2 1 [[mkCard "A" matched None]; [mkCard "A" matched None]])
  ∧ flip 1 2 "p1" board_AB_1
    = (Normal (mkFlipResult true "Not a match."
                 [[mkPublicCard None face_down None;
                   mkPublicCard None face_down None]]),
       board_AB).
Proof.
  split.
  - destruct (flip_second_card board_AA_1 2 1 "p1" (face_down_card "A"))
      as (rc1 & rc2 & b' & Hfound & _ & _ & _ & _ & Hmatch & _);
      [apply rep_ok_dec; reflexivity | reflexivity | reflexivity | reflexivity |].
    injection Hfound as <- <-.
    destruct Hmatch as (Hflip & _); [reflexivity|].
    pose proof (f_equal snd Hflip) as Hb'. vm_compute in Hb'. subst b'.
    rewrite Hflip. reflexivity.
  - destruct (flip_second_card board_AB_1 1 2 "p1" (face_down_card "B"))
      as (rc1 & rc2 & b' & Hfound & _ & _ & _ & _ & _ & Hmiss);
      [apply rep_ok_dec; reflexivity | reflexivity | reflexivity | reflexivity |].
    injection Hfound as <- <-.
    destruct Hmiss as (Hflip & _); [discriminate|].
    pose proof (f_equal snd Hflip) as Hb'. vm_compute in Hb'. subst b'.
    rewrite Hflip. reflexivity.
Defined.

(** ** The frame of [flip] *)

(** C10: on a well-shaped board every flip returns, and there is a list of
    at most two touched cells outside which every cell is unchanged: it is
    empty when the flip is rejected, and otherwise holds the target and,
    only when the active reveal set has exactly two entries, the cells of
    that set.  The dimensions and the shape are unchanged, and no card's
    value changes. *)
Theorem flip_frame b row col player :
  rep_ok b →
  let found := scan_grid player (revealed_board b (row - 1) (col - 1) player) in
  ∃ res b' touched,
    flip row col player b = (Normal res, b')
    ∧ rows b' = rows b ∧ cols b' = cols b ∧ shape b' = shape b
    ∧ (length touched ≤ 2)%nat
    ∧ (∀ p, p ∈ touched →
            p = (row - 1, col - 1)
            ∨ (length found = 2%nat ∧ (row - 1, col - 1) ∈ pos <$> found
               ∧ p ∈ pos <$> found))
    ∧ (success res = false → touched = [])
    ∧ (∀ i j, (i, j) ∉ touched → cell b' i j = cell b i j)
    ∧ (∀ i j, value <$> cell b' i j = value <$> cell b i j).
Proof.
  intros Hok found.
  destruct (flip_cases b row col player Hok) as [[msg Hrun]|(card & Hcell & Hdown)].
  { eexists _, b, []. split_and!; try done.
    - simpl. lia.
    - intros p Hp. by apply not_elem_of_nil in Hp. }
  pose proof (flip_face_down b row col player card Hok Hcell Hdown) as Hflip.
  pose proof (target_in_scan b _ _ player card Hok Hcell) as Htarget.
  pose proof (revealed_board_frame b (row - 1) (col - 1) player) as (Hr1 & Hc1 & Hs1).
  pose proof (revealed_board_cell b (row - 1) (col - 1) player card) as Hcell1.
  pose proof (revealed_board_value b (row - 1) (col - 1) player) as Hval1.
  set (b1 := revealed_board b (row - 1) (col - 1) player) in *.
  simpl in Hflip. fold found in Hflip, Htarget.
  assert (Hin : (row - 1, col - 1) ∈ pos <$> found).
  { apply list_elem_of_fmap. eexists. split; [|exact Htarget]. done. }
  assert (Hres : ∀ st, rows (settled_board st found b1) = rows b
                       ∧ cols (settled_board st found b1) = cols b
                       ∧ shape (settled_board st found b1) = shape b
                       ∧ (∀ i j, (i, j) ∉ pos <$> found →
                                 cell (settled_board st found b1) i j = cell b i j)
                       ∧ (∀ i j, value <$> cell (settled_board st found b1) i j
                                 = value <$> cell b i j)).
  { intros st.
    destruct (for_of_settle_spec st found b1) as (_ & Hr & Hc & Hs & _).
    split_and!; try congruence.
    - intros i j Hnin. rewrite settled_board_other, Hcell1 by done.
      rewrite decide_False; [done|]. intros [-> ->]. done.
    - intros i j. by rewrite settled_board_value. }
  destruct (decide (length found = 2%nat)) as [Hlen|Hlen].
  - assert (Hlen' : (length (pos <$> found) ≤ 2)%nat) by (rewrite length_fmap; lia).
    destruct (same_value _ _).
    + destruct (Hres matched) as (? & ? & ? & ? & ?).
      eexists _, _, (pos <$> found). split; [exact Hflip|].
      split_and!; try done. intros p Hp. by right.
    + destruct (Hres face_down) as (? & ? & ? & ? & ?).
      eexists _, _, (pos <$> found). split; [exact Hflip|].
      split_and!; try done. intros p Hp. by right.
  - eexists _, b1, [(row - 1, col - 1)]. split; [exact Hflip|].
    split_and!; try done.
    + simpl. lia.
    + intros p Hp. apply list_elem_of_singleton in Hp. by left.
    + intros i j Hnin. rewrite Hcell1 by done. rewrite decide_False; [done|].
      intros [-> ->]. apply Hnin, list_elem_of_here.
Qed.

Lemma flip_frame_witness :
  ∃ res b' touched,
    flip 1 2 "p1" board_AB_1 = (Normal res, b')
    ∧ rows b' = 1 ∧ cols b' = 2
    ∧ (length touched ≤ 2)%nat
    ∧ (∀ i j, (i, j) ∉ touched → cell b' i j = cell board_AB_1 i j)
    ∧ (∀ i j, value <$> cell b' i j = value <$> cell board_AB_1 i j).
Proof.
  destruct (flip_frame board_AB_1 1 2 "p1")
    as (res & b' & touched & Hflip & Hr & Hc & _ & Hlen & _ & _ & Hcells & Hvals);
    [apply rep_ok_dec; reflexivity|].
  exists res, b', touched. split_and!; done.
Defined.

(** ** The controller invariant *)

Lemma reachable_controller_inv b : reachable b → controller_inv b.
Proof.
  induction 1 as [sort nrows ncols cards b _ Hnew | b row col player Hreach IH].
  - by eapply Board_new_controller_inv.
  - by apply flip_preserves; [apply reachable_rep_ok|].
Qed.

(** C2: the constructor establishes the controller invariant, every flip
    call on a reachable board preserves it whichever way the call ends, and
    so every card of every reachable board has a controller exactly when
    its state is revealed, and none when it is face down or matched. *)
Theorem controller_invariant :
  (∀ sort nrows ncols cards b,
     Board_new sort nrows ncols cards = Normal b → controller_inv b)
  ∧ (∀ b row col player,
       reachable b → controller_inv b → controller_inv (flip row col player b).2)
  ∧ (∀ b, reachable b →
       ∀ i j card, cell b i j = Some card →
         (is_Some (controlledBy card) ↔ state card = revealed)
         ∧ (state card = face_down ∨ state card = matched → controlledBy card = None)).
Proof.
  split_and!.
  - intros sort nrows ncols cards b. apply Board_new_controller_inv.
  - intros b row col player Hreach. by apply flip_preserves, reachable_rep_ok.
  - intros b Hreach i j card Hcell.
    pose proof (reachable_controller_inv b Hreach) as Hinv.
    unfold controller_inv in Hinv. rewrite grid_Forall_cell in Hinv.
    specialize (Hinv i j card Hcell). split; [exact Hinv|].
    intros Hstate. destruct (controlledBy card) as [p|] eqn:Hctl; [|done].
    assert (state card = revealed) by (apply Hinv; by eexists).
    destruct Hstate; congruence.
Qed.

Lemma reachable_board_AA : reachable board_AA.
Proof.
  apply (reach_new (λ l, l) 2 1 ["A"; "A"]); [|reflexivity].
  intros l. reflexivity.
Defined.

Lemma reachable_board_AA_1 : reachable board_AA_1.
Proof. apply reach_flip, reachable_board_AA. Defined.

Lemma controller_invariant_witness :
  (is_Some (controlledBy (mkCard "A" revealed (Some "p1")))
   ↔ state (mkCard "A" revealed (Some "p1")) = revealed)
  ∧ controller_inv (flip 2 1 "p1" board_AA_1).2.
Proof.
  destruct controller_invariant as (Hnew & Hflip & Hall). split.
  - apply (Hall board_AA_1 reachable_board_AA_1 0 0). reflexivity.
  - apply Hflip; [apply reachable_board_AA_1|].
    apply Hflip; [apply reachable_board_AA|].
    apply (Hnew (λ l, l) 2 1 ["A"; "A"]). reflexivity.
Defined.

(** ** The views *)

Lemma look_card_cases player card :
  (state card = matched →
   look_card player card = mkPublicCard (Some (value card)) matched None)
  ∧ (state card = revealed → controlledBy card = Some player →
     look_card player card = mkPublicCard (Some (value card)) revealed (Some player))
  ∧ (state card = face_down
     ∨ (state card = revealed ∧ controlledBy card ≠ Some player) →
     look_card player card = mkPublicCard None face_down None).
Proof.
  unfold look_card. split_and!.
  - intros Hst. by rewrite decide_True.
  - intros Hst Hctl. rewrite decide_False by congruence. by rewrite decide_True.
  - intros Hother. rewrite decide_False by (destruct Hother as [?|[? _]]; congruence).
    rewrite decide_False; [done|]. intros [Hst Hctl].
    destruct Hother as [?|[_ ?]]; congruence.
Qed.

(** C5: [look(player)] returns, cell by cell, the projection of the card:
    a matched card shows its value, state matched and no controller; a card
    revealed and controlled by [player] shows its value, state revealed and
    controller [player]; any other card (face down, or revealed with
    another controller) shows no value and state face down.  So for
    distinct players A and B a card revealed by B is hidden and face down
    for A, and shown with its value, revealed and controlled by B, for B. *)
Theorem look_spec b player :
  look player b = (Normal (look_view player b), b)
  ∧ (∀ i j, view_cell (look_view player b) i j = look_card player <$> cell b i j)
  ∧ (∀ i j card, cell b i j = Some card →
       (state card = matched →
        view_cell (look_view player b) i j
        = Some (mkPublicCard (Some (value card)) matched None))
       ∧ (state card = revealed → controlledBy card = Some player →
          view_cell (look_view player b) i j
          = Some (mkPublicCard (Some (value card)) revealed (Some player)))
       ∧ (state card = face_down
          ∨ (state card = revealed ∧ controlledBy card ≠ Some player) →
          view_cell (look_view player b) i j
          = Some (mkPublicCard None face_down None)))
  ∧ (∀ A B i j card,
       A ≠ B → cell b i j = Some card →
       state card = revealed → controlledBy card = Some B →
       view_cell (look_view A b) i j = Some (mkPublicCard None face_down None)
       ∧ view_cell (look_view B b) i j
         = Some (mkPublicCard (Some (value card)) revealed (Some B))).
Proof.
  assert (Hview : ∀ p i j, view_cell (look_view p b) i j = look_card p <$> cell b i j)
    by (intros p i j; apply view_cell_fmap).
  split_and!; [done | apply Hview | |].
  - intros i j card Hcell. rewrite Hview, Hcell. simpl.
    destruct (look_card_cases player card) as (H1 & H2 & H3).
    split_and!; intros; f_equal; auto.
  - intros A B i j card Hne Hcell Hst Hctl. rewrite !Hview, Hcell. simpl.
    destruct (look_card_cases A card) as (_ & _ & HA).
    destruct (look_card_cases B card) as (_ & HB & _).
    split; f_equal; [apply HA | by apply HB].
    right. split; [done|]. congruence.
Qed.

Lemma look_spec_witness :
  view_cell (look_view "p2" board_AA_1) 0 0 = Some (mkPublicCard None face_down None)
  ∧ view_cell (look_view "p1" board_AA_1) 0 0
    = Some (mkPublicCard (Some "A") revealed (Some "p1")).
Proof.
  destruct (look_spec board_AA_1 "p1") as (_ & _ & _ & Hplayers).
  apply (Hplayers "p2" "p1" 0 0 (mkCard "A" revealed (Some "p1")));
    [discriminate | reflexivity | reflexivity | reflexivity].
Defined.

(** C7: [look(player)] is a pure read.  It returns with the board, every
    cell and both dimensions included, exactly as it was, and two
    consecutive calls return the same view. *)
Theorem look_pure b player :
  (look player b).2 = b
  ∧ (v1 ← look player; v2 ← look player; mret (v1, v2)) b
    = (Normal (look_view player b, look_view player b), b).
Proof. done. Qed.

Lemma map_card_cases card :
  (state card = matched ∨ state card = revealed →
   map_card card = mkPublicCard (Some (value card)) (state card) None)
  ∧ (state card = face_down → map_card card = mkPublicCard None face_down None).
Proof.
  unfold map_card. split.
  - intros Hst. by rewrite decide_True.
  - intros Hst. rewrite decide_False; [done|]. rewrite Hst. naive_solver.
Qed.

(** Where the entries of [map] and of [look] differ. *)
Lemma map_card_look_card player card :
  (map_card card ≠ look_card player card ↔ state card = revealed)
  ∧ ((pub_value (map_card card), pub_state (map_card card))
     ≠ (pub_value (look_card player card), pub_state (look_card player card))
     ↔ state card = revealed ∧ controlledBy card ≠ Some player).
Proof.
  unfold map_card, look_card.
  destruct card as [v st ctl]. simpl.
  destruct st; repeat case_decide; simpl; naive_solver.
Qed.

(** C8, as the code has it: [map()] hides nothing by player.  A matched or
    revealed card shows its value and its state, a face-down card shows no
    value and state face down; no entry carries a controller.  Its entry
    differs from the one of [look(player)] in value or state exactly on the
    cards that are revealed and not controlled by [player]; on a card that
    [player] has revealed the two agree on value and state, and [look]
    alone reports the controller, so that as whole entries they differ
    exactly on the revealed cards. *)
Theorem map_spec b player :
  map b = (Normal (map_view b), b)
  ∧ (∀ i j, view_cell (map_view b) i j = map_card <$> cell b i j)
  ∧ (∀ i j card, cell b i j = Some card →
       ∃ m l,
         view_cell (map_view b) i j = Some m
         ∧ view_cell (look_view player b) i j = Some l
         ∧ (state card = matched ∨ state card = revealed →
            m = mkPublicCard (Some (value card)) (state card) None)
         ∧ (state card = face_down → m = mkPublicCard None face_down None)
         ∧ ((pub_value m, pub_state m) ≠ (pub_value l, pub_state l)
            ↔ state card = revealed ∧ controlledBy card ≠ Some player)
         ∧ (m ≠ l ↔ state card = revealed)).
Proof.
  split_and!; [done | intros; apply view_cell_fmap |].
  intros i j card Hcell. exists (map_card card), (look_card player card).
  unfold map_view, look_view. rewrite !view_cell_fmap, Hcell.
  destruct (map_card_cases card) as [Hshown Hhidden].
  destruct (map_card_look_card player card) as [Hentry Hvs].
  by split_and!.
Qed.

Lemma map_spec_witness :
  view_cell (map_view board_AA_1) 0 0 = Some (mkPublicCard (Some "A") revealed None)
  ∧ view_cell (map_view board_AA_1) 1 0 = Some (mkPublicCard None face_down None).
Proof.
  split.
  - destruct (map_spec board_AA_1 "p2") as (_ & _ & Hcells).
    destruct (Hcells 0 0 (mkCard "A" revealed (Some "p1")))
      as (m & l & -> & _ & Hshown & _); [reflexivity|].
    f_equal. apply Hshown. by right.
  - destruct (map_spec board_AA_1 "p2") as (_ & _ & Hcells).
    destruct (Hcells 1 0 (face_down_card "A"))
      as (m & l & -> & _ & _ & Hhidden & _); [reflexivity|].
    f_equal. by apply Hhidden.
Defined.

(** C8 as stated fails: on the reachable board where p1 has turned up one
    card, the entries of [map()] and of [look("p1")] for that card differ
    (only [look] reports the controller), although the card is not revealed
    by another player. *)
Lemma map_differs_on_own_card :
  ¬ (∀ b player i j card,
       reachable b → cell b i j = Some card →
       (view_cell (map_view b) i j ≠ view_cell (look_view player b) i j
        ↔ state card = revealed ∧ controlledBy card ≠ Some player)).
Proof.
  intros Hclaim.
  destruct (Hclaim board_AA_1 "p1" 0 0 (mkCard "A" revealed (Some "p1"))
              reachable_board_AA_1 eq_refl) as [Hdiff _].
  destruct Hdiff as [_ Hother]; [discriminate|]. by apply Hother.
Qed.

(** ** Construction *)

Lemma fill_board_values shuffled nrows ncols :
  let n := Z.to_nat (nrows * ncols) in
  0 ≤ nrows → 0 ≤ ncols →
  value <$> concat (fill_board shuffled nrows ncols).1
  = take n shuffled ++ replicate (n - length shuffled) "".
Proof.
  intros n Hr Hc.
  destruct (fill_board_spec shuffled nrows ncols) as (_ & _ & ->).
  rewrite <- list_fmap_compose.
  replace (Z.to_nat nrows * Z.to_nat ncols)%nat with n by (unfold n; lia).
  apply padded_values.
Qed.

(** C9, as the code has it: for positive [rows] and [cols] and any card
    values, whatever rearrangement the shuffle makes, the constructor
    returns (the check of [checkRep] passes) a board of exactly [rows] rows
    of [cols] cards each, every card face down with no controller.  In
    row-major order the cells hold the first [rows * cols] values of the
    shuffled sequence, which is a permutation of all the supplied values,
    followed by the empty string in the cells left when fewer values were
    supplied.  When no more than [rows * cols] values are supplied, these
    are the supplied values in some order followed by the placeholders. *)
Theorem Board_new_spec sort nrows ncols cards :
  rearranges sort → 0 < nrows → 0 < ncols →
  let n := Z.to_nat (nrows * ncols) in
  ∃ b,
    Board_new sort nrows ncols cards = Normal b
    ∧ rows b = nrows ∧ cols b = ncols
    ∧ Z.of_nat (length (board b)) = nrows
    ∧ Forall (λ row : list Card, Z.of_nat (length row) = ncols) (board b)
    ∧ Forall (Forall (λ card, state card = face_down ∧ controlledBy card = None))
             (board b)
    ∧ sort cards ≡ₚ cards
    ∧ cell_values b = take n (sort cards) ++ replicate (n - length cards) ""
    ∧ ((length cards ≤ n)%nat →
       ∃ p, p ≡ₚ take n cards ∧ cell_values b = p ++ replicate (n - length cards) "").
Proof.
  intros Hsort Hr Hc n.
  assert (Hnew := Board_new_succeeds sort nrows ncols cards ltac:(lia) ltac:(lia)).
  destruct (Board_new_grid _ _ _ _ _ Hnew) as [_ [Hrows Hcols]].
  assert (Hvalues : cell_values (mkBoard nrows ncols (fill_board (sort cards) nrows ncols).1)
                    = take n (sort cards) ++ replicate (n - length cards) "").
  { unfold cell_values. simpl. rewrite fill_board_values by lia. fold n.
    by rewrite (Permutation_length (Hsort cards)). }
  eexists. split; [exact Hnew|]. split_and!; try done.
  - apply fill_board_fresh.
  - intros Hlen. exists (sort cards). split.
    + rewrite take_ge by done. apply Hsort.
    + rewrite Hvalues. f_equal. apply take_ge.
      by rewrite (Permutation_length (Hsort cards)).
Qed.

Lemma Board_new_spec_witness :
  ∃ b, Board_new reverse 2 2 ["A"; "B"; "C"] = Normal b
       ∧ rows b = 2 ∧ cols b = 2
       ∧ cell_values b = ["C"; "B"; "A"; ""].
Proof.
  destruct (Board_new_spec reverse 2 2 ["A"; "B"; "C"])
    as (b & Hnew & Hr & Hc & _ & _ & _ & _ & Hvalues & _);
    [intros l; apply reverse_Permutation | lia | lia |].
  exists b. split_and!; done.
Defined.

(** C9 as stated fails when more than [rows * cols] values are supplied:
    the cells hold the first values of the shuffled sequence, not a
    rearrangement of the first supplied values.  With two values for one
    cell and a shuffle that swaps them, the cell holds the second value. *)
Lemma Board_new_keeps_shuffled_prefix :
  rearranges reverse
  ∧ ∃ b, Board_new reverse 1 1 ["A"; "B"] = Normal b
         ∧ cell_values b = ["B"]
         ∧ ¬ (∃ p, p ≡ₚ take (Z.to_nat (1 * 1)) ["A"; "B"]
                   ∧ cell_values b
                     = p ++ replicate (Z.to_nat (1 * 1) - length ["A"; "B"]) "").
Proof.
  split; [intros l; apply reverse_Permutation|].
  eexists. split; [reflexivity|]. split; [reflexivity|].
  intros (p & Hperm & Hvalues).
  change (["B"] = p ++ []) in Hvalues. rewrite app_nil_r in Hvalues. subst p.
  change (["B"] ≡ₚ ["A"]) in Hperm.
  apply Permutation_singleton_inj in Hperm. discriminate.
Qed.

(** ** The scenarios of the specification *)

Example end_to_end_scenario :
  let step1 := flip 1 1 "p1" board_AA in
  let step2 := flip 2 1 "p1" step1.2 in
  step1.1 = Normal (mkFlipResult true "Card flipped"
                      [[mkPublicCard (Some "A") revealed (Some "p1")];
                       [mkPublicCard None face_down None]])
  ∧ step2.1 = Normal (mkFlipResult true "Match!"
                        [[mkPublicCard (Some "A") matched None];
                         [mkPublicCard (Some "A") matched None]])
  ∧ (look "p2" step2.2).1 = Normal [[mkPublicCard (Some "A") matched None];
                                     [mkPublicCard (Some "A") matched None]].
Proof. by vm_compute. Qed.

Example mismatch_scenario :
  let step1 := flip 1 1 "p1" board_AB in
  let step2 := flip 1 2 "p1" step1.2 in
  message <$> (match step1.1 with Normal res => Some res | Thrown _ => None end)
  = Some "Card flipped"
  ∧ step2.1 = Normal (mkFlipResult true "Not a match."
                        [[mkPublicCard None face_down None;
                          mkPublicCard None face_down None]])
  ∧ step2.2 = board_AB.
Proof. by vm_compute. Qed.

(** ** Grids compared cell by cell *)

Lemma cell_of_nat b (i j : nat) :
  cell b (Z.of_nat i) (Z.of_nat j) = board b !! i ≫= (λ row, row !! j).
Proof.
  unfold cell, at_index. rewrite !Nat2Z.id. rewrite decide_True by lia.
  destruct (board b !! i) as [row|]; [|done]. simpl.
  by rewrite decide_True by lia.
Qed.

Lemma grid_fmap_ext {B : Type} (f : Card → B) b b' :
  shape b' = shape b →
  (∀ i j, f <$> cell b' i j = f <$> cell b i j) →
  fmap (M := list) (fmap (M := list) f) (board b')
  = fmap (M := list) (fmap (M := list) f) (board b).
Proof.
  intros Hshape Hcells. apply list_eq. intros i. rewrite !list_lookup_fmap.
  assert (Hlen : length <$> board b' !! i = length <$> board b !! i)
    by (by rewrite <- !list_lookup_fmap; unfold shape in Hshape; rewrite Hshape).
  assert (Hrow : ∀ j, f <$> (board b' !! i ≫= (λ row, row !! j))
                      = f <$> (board b !! i ≫= (λ row, row !! j)))
    by (intros j; rewrite <- !cell_of_nat; apply Hcells).
  destruct (board b' !! i) as [row'|], (board b !! i) as [row|]; try done.
  simpl in *. f_equal. apply list_eq. intros j. rewrite !list_lookup_fmap.
  apply Hrow.
Qed.

Lemma board_ext b b' :
  rows b' = rows b → cols b' = cols b → shape b' = shape b →
  (∀ i j, cell b' i j = cell b i j) →
  b' = b.
Proof.
  intros Hr Hc Hshape Hcells.
  pose proof (grid_fmap_ext id b b' Hshape) as Hgrid.
  destruct b as [nr nc grid], b' as [nr' nc' grid']. simpl in *. subst.
  f_equal.
  assert (Hid : ∀ l : list (list Card), fmap (M := list) (fmap (M := list) id) l = l).
  { intros l. induction l as [|row l IH]; [done|].
    rewrite fmap_cons, IH. by rewrite list_fmap_id. }
  rewrite <- (Hid grid'), <- (Hid grid). apply Hgrid.
  intros i j. by rewrite !option_fmap_id, Hcells.
Qed.

Lemma shape_views {B : Type} (f : Card → B) b :
  rep_ok b →
  Z.of_nat (length (fmap (M := list) (fmap (M := list) f) (board b))) = rows b
  ∧ Forall (λ row : list B, Z.of_nat (length row) = cols b)
           (fmap (M := list) (fmap (M := list) f) (board b)).
Proof.
  intros [Hr Hc]. split; [by rewrite length_fmap|].
  apply Forall_fmap. eapply Forall_impl; [exact Hc|]. simpl.
  intros row Hrow. by rewrite length_fmap.
Qed.

(** ** The three outcomes of [flip] *)

Lemma flip_outcome b row col player :
  rep_ok b →
  let b1 := revealed_board b (row - 1) (col - 1) player in
  let found := scan_grid player b1 in
  (∃ msg, flip row col player b
          = (Normal (mkFlipResult false msg (look_view player b)), b))
  ∨ (∃ card,
       cell b (row - 1) (col - 1) = Some card ∧ state card = face_down
       ∧ length found ≠ 2%nat
       ∧ flip row col player b
         = (Normal (mkFlipResult true "Card flipped" (look_view player b1)), b1))
  ∨ (∃ card st msg,
       cell b (row - 1) (col - 1) = Some card ∧ state card = face_down
       ∧ length found = 2%nat
       ∧ ((st = matched ∧ msg = "Match!") ∨ (st = face_down ∧ msg = "Not a match."))
       ∧ flip row col player b
         = (Normal (mkFlipResult true msg
                      (look_view player (settled_board st found b1))),
            settled_board st found b1)).
Proof.
  intros Hok b1 found.
  destruct (flip_cases b row col player Hok) as [Hrej|(card & Hcell & Hdown)];
    [by left|].
  pose proof (flip_face_down b row col player card Hok Hcell Hdown) as Hflip.
  simpl in Hflip. fold b1 found in Hflip. right.
  destruct (decide (length found = 2%nat)) as [Hlen|Hlen].
  - right. destruct (same_value _ _).
    + exists card, matched, "Match!". split_and!; try done. by left.
    + exists card, face_down, "Not a match.". split_and!; try done. by right.
  - left. by exists card.
Qed.

(** Every card that [player] holds on a well-shaped board is in the scan. *)
Lemma held_in_scan player b i j card :
  rep_ok b → cell b i j = Some card → held_by player card →
  (i, j) ∈ pos <$> scan_grid player b.
Proof.
  intros Hok Hcell Hheld.
  pose proof (proj1 (cell_in_bounds b i j Hok) (mk_is_Some _ _ Hcell)) as [Hi Hj].
  apply list_elem_of_fmap. exists (mkRevealed i j (value card)). split; [done|].
  apply elem_of_scan_grid. simpl. split_and!; try lia. by exists card.
Qed.

Lemma scan_held player b i j :
  (i, j) ∈ pos <$> scan_grid player b →
  ∃ card, cell b i j = Some card ∧ held_by player card.
Proof.
  intros Hin. apply list_elem_of_fmap in Hin as (rc & Hpos & Hin).
  injection Hpos as -> ->.
  apply elem_of_scan_grid in Hin as (_ & _ & card & Hcell & Hheld & _).
  by exists card.
Qed.

(** ** What a flip leaves alone *)

(** [flip(.., player)] changes only cards that are face down or that
    [player] holds. *)
Lemma flip_untouched b row col player i j card :
  rep_ok b → cell b i j = Some card →
  state card ≠ face_down → ¬ held_by player card →
  cell (flip row col player b).2 i j = Some card.
Proof.
  intros Hok Hcell Hup Hnheld.
  pose proof (revealed_board_cell b (row - 1) (col - 1) player) as Hcell1.
  destruct (flip_outcome b row col player Hok)
    as [[msg ->]|[(x & Hx & Hdown & _ & ->)|(x & st & msg & Hx & Hdown & _ & _ & ->)]];
    simpl; [done| |].
  - rewrite (Hcell1 x) by done. rewrite decide_False; [done|].
    intros [-> ->]. congruence.
  - assert (Hne : ¬ (i = row - 1 ∧ j = col - 1)) by (intros [-> ->]; congruence).
    rewrite settled_board_other.
    + rewrite (Hcell1 x) by done. by rewrite decide_False.
    + intros Hin. apply scan_held in Hin as (card1 & Hcard1 & Hheld).
      rewrite (Hcell1 x) in Hcard1 by done. rewrite decide_False in Hcard1 by done.
      congruence.
Qed.

(** After a flip, a held card was already held, or is the card just turned
    up by the caller on the way out with "Card flipped". *)
Lemma flip_held_before b row col player q i j card' :
  rep_ok b → cell (flip row col player b).2 i j = Some card' → held_by q card' →
  (cell b i j = Some card')
  ∨ (q = player ∧ i = row - 1 ∧ j = col - 1
     ∧ length (scan_grid player (revealed_board b (row - 1) (col - 1) player)) ≠ 2%nat
     ∧ ∃ x, cell b i j = Some x ∧ state x = face_down).
Proof.
  intros Hok Hcell' Hheld.
  pose proof (revealed_board_cell b (row - 1) (col - 1) player) as Hcell1.
  pose proof (target_in_scan b (row - 1) (col - 1) player) as Htarget.
  destruct (flip_outcome b row col player Hok)
    as [[msg Hrun]|[(x & Hx & Hdown & Hlen & Hrun)
                   |(x & st & msg & Hx & Hdown & _ & Hst & Hrun)]];
    rewrite Hrun in Hcell'; simpl in Hcell'; [by left| |].
  - rewrite (Hcell1 x) in Hcell' by done. case_decide as Hij; [|by left].
    destruct Hij as [-> ->]. injection Hcell' as <-.
    destruct Hheld as [_ [= ->]]. right. split_and!; try done. by exists x.
  - destruct (for_of_settle_spec st
                (scan_grid player (revealed_board b (row - 1) (col - 1) player))
                (revealed_board b (row - 1) (col - 1) player))
      as (_ & _ & _ & _ & Hcells).
    rewrite Hcells in Hcell'.
    destruct (cell (revealed_board b (row - 1) (col - 1) player) i j)
      as [card1|] eqn:Hcard1; [|done].
    injection Hcell' as <-. unfold settle_card in Hheld |- *.
    case_decide as Hin.
    { destruct Hheld as [Hrev _]. simpl in Hrev.
      destruct Hst as [[-> _]|[-> _]]; done. }
    left. rewrite (Hcell1 x) in Hcard1 by done.
    case_decide as Hij; [|done]. destruct Hij as [-> ->].
    exfalso. apply Hin. apply list_elem_of_fmap.
    exists (mkRevealed (row - 1) (col - 1) (value x)). split; [done|]. by apply Htarget.
Qed.

(** ** At most one card held *)

Lemma holds_at_most_one_length player b :
  holds_at_most_one player b → (length (scan_grid player b) ≤ 1)%nat.
Proof.
  intros Hone. pose proof (NoDup_scan_grid player b) as Hnodup.
  pose proof (λ i j, scan_held player b i j) as Hheld.
  rewrite <- (length_fmap pos).
  destruct (pos <$> scan_grid player b) as [|[i j] [|[i' j'] rest]]; simpl; try lia.
  exfalso.
  destruct (Hheld i j) as (card & Hcell & Hcard); [apply list_elem_of_here|].
  destruct (Hheld i' j') as (card' & Hcell' & Hcard');
    [apply list_elem_of_further, list_elem_of_here|].
  destruct (Hone _ _ _ _ _ _ Hcell Hcard Hcell' Hcard') as [-> ->].
  apply NoDup_cons in Hnodup as [Hnin _]. apply Hnin, list_elem_of_here.
Qed.

Lemma flip_holds_at_most_one b row col player :
  rep_ok b → (∀ q, holds_at_most_one q b) →
  ∀ q, holds_at_most_one q (flip row col player b).2.
Proof.
  intros Hok Hone q i j i' j' card card' Hcell Hheld Hcell' Hheld'.
  assert (Hempty : length (scan_grid player
                     (revealed_board b (row - 1) (col - 1) player)) ≠ 2%nat →
                   ∀ x, cell b (row - 1) (col - 1) = Some x → state x = face_down →
                   ∀ k l y, cell b k l = Some y → held_by player y → False).
  { intros Hlen x Hx Hdown k l y Hy Hheldy.
    rewrite (length_scan_grid_revealed_board _ _ _ _ x) in Hlen by done.
    pose proof (holds_at_most_one_length player b (Hone player)) as Hle.
    pose proof (held_in_scan player b k l y Hok Hy Hheldy) as Hin.
    destruct (scan_grid player b); [by apply not_elem_of_nil in Hin|].
    simpl in *. lia. }
  destruct (flip_held_before b row col player q i j card Hok Hcell Hheld)
    as [Hb|(Hq & Hi & Hj & Hlen & x & Hx & Hdown)];
  destruct (flip_held_before b row col player q i' j' card' Hok Hcell' Hheld')
    as [Hb'|(Hq' & Hi' & Hj' & Hlen' & x' & Hx' & Hdown')].
  - by eapply (Hone q).
  - subst. exfalso. by eapply (Hempty Hlen' x' Hx' Hdown' i j card).
  - subst. exfalso. by eapply (Hempty Hlen x Hx Hdown i' j' card').
  - by subst.
Qed.

Lemma Board_new_nothing_held sort nrows ncols cards b player :
  Board_new sort nrows ncols cards = Normal b →
  ∀ i j card, cell b i j = Some card → ¬ held_by player card.
Proof.
  intros Hnew i j card Hcell [Hrev _].
  apply Board_new_grid in Hnew as [-> _].
  pose proof (fill_board_fresh (sort cards) nrows ncols) as Hfresh.
  pose proof (proj1 (grid_Forall_cell _ (mkBoard nrows ncols _)) Hfresh i j card Hcell)
    as [Hdown _].
  congruence.
Qed.

Lemma reachable_holds_one b : reachable b → ∀ q, holds_at_most_one q b.
Proof.
  induction 1 as [sort nrows ncols cards b _ Hnew | b row col player Hreach IH].
  - intros q i j i' j' card card' Hcell Hheld.
    by destruct (Board_new_nothing_held _ _ _ _ _ q Hnew i j card Hcell).
  - by apply flip_holds_at_most_one; [apply reachable_rep_ok|].
Qed.

Lemma reachable_board_AA_2 : reachable board_AA_2.
Proof. apply reach_flip, reachable_board_AA_1. Defined.

Lemma look_card_hidden A B card :
  state card = face_down ∨ (held_by B card ∧ A ≠ B) →
  look_card A card = mkPublicCard None face_down None.
Proof.
  intros Hcard. apply look_card_cases.
  destruct Hcard as [?|[[Hrev Hctl] Hne]]; [by left|].
  right. split; [done|]. congruence.
Qed.

(** ** Further properties of the board *)

(** The grid-shape invariant: every reachable board has exactly [rows] rows
    of [cols] cards, a cell exists exactly at the 0-based coordinates inside
    these bounds, and every flip on it returns normally (the checks of
    [checkRep] pass) and leaves the dimensions and the shape as they were. *)
Theorem reachable_grid_shape b :
  reachable b →
  Z.of_nat (length (board b)) = rows b
  ∧ Forall (λ row : list Card, Z.of_nat (length row) = cols b) (board b)
  ∧ (∀ i j, is_Some (cell b i j) ↔ 0 ≤ i < rows b ∧ 0 ≤ j < cols b)
  ∧ (∀ row col player,
       ∃ res b', flip row col player b = (Normal res, b')
                 ∧ rows b' = rows b ∧ cols b' = cols b ∧ shape b' = shape b).
Proof.
  intros Hreach. pose proof (reachable_rep_ok b Hreach) as Hok.
  pose proof Hok as [Hrows Hcols].
  split_and!; [done | done | intros; by apply cell_in_bounds |].
  intros row col player.
  pose proof (revealed_board_frame b (row - 1) (col - 1) player) as (Hr1 & Hc1 & Hs1).
  destruct (flip_outcome b row col player Hok)
    as [[msg ->]|[(x & _ & _ & _ & ->)|(x & st & msg & _ & _ & _ & _ & ->)]].
  - by eexists _, _.
  - by eexists _, _.
  - destruct (for_of_settle_spec st
                (scan_grid player (revealed_board b (row - 1) (col - 1) player))
                (revealed_board b (row - 1) (col - 1) player))
      as (_ & Hr & Hc & Hs & _).
    eexists _, _. split; [done|]. split_and!; congruence.
Qed.

Lemma reachable_grid_shape_witness :
  ∃ res b', flip 2 1 "p2" board_AA_1 = (Normal res, b')
            ∧ rows b' = 2 ∧ cols b' = 1.
Proof.
  destruct (reachable_grid_shape board_AA_1 reachable_board_AA_1)
    as (_ & _ & _ & Hflip).
  destruct (Hflip 2 1 "p2") as (res & b' & Hrun & Hr & Hc & _).
  by exists res, b'.
Defined.

(** On every reachable board every player holds at most one card: a second
    card turned up is resolved before [flip] returns. *)
Theorem at_most_one_card_held b player :
  reachable b →
  (length (scan_grid player b) ≤ 1)%nat
  ∧ ∀ i j i' j' card card',
      cell b i j = Some card → state card = revealed → controlledBy card = Some player →
      cell b i' j' = Some card' → state card' = revealed → controlledBy card' = Some player →
      i = i' ∧ j = j'.
Proof.
  intros Hreach. pose proof (reachable_holds_one b Hreach player) as Hone.
  split; [by apply holds_at_most_one_length|].
  intros i j i' j' card card' Hcell Hst Hctl Hcell' Hst' Hctl'.
  by apply (Hone i j i' j' card card').
Qed.

Lemma at_most_one_card_held_witness :
  (length (scan_grid "p1" board_AA_1) ≤ 1)%nat
  ∧ (length (scan_grid "p1" board_AA_2) ≤ 1)%nat.
Proof.
  split.
  - apply (at_most_one_card_held board_AA_1 "p1" reachable_board_AA_1).
  - apply (at_most_one_card_held board_AA_2 "p1" reachable_board_AA_2).
Defined.

(** Matched is final: on a well-shaped board no flip, by anyone and
    anywhere, changes a matched card. *)
Theorem matched_is_final b row col player i j card :
  rep_ok b → cell b i j = Some card → state card = matched →
  cell (flip row col player b).2 i j = Some card.
Proof.
  intros Hok Hcell Hst. apply flip_untouched; try done.
  - congruence.
  - intros [Hrev _]. congruence.
Qed.

Lemma matched_is_final_witness :
  cell (flip 1 1 "p2" board_AA_2).2 0 0 = Some (mkCard "A" matched None).
Proof.
  apply (matched_is_final board_AA_2 1 1 "p2" 0 0 (mkCard "A" matched None));
    [apply rep_ok_dec; reflexivity | reflexivity | reflexivity].
Defined.

(** A flip never touches another player's card: on a well-shaped board a
    card revealed and controlled by [q] is the same after any flip of a
    different player. *)
Theorem flip_keeps_others_cards b row col player q i j card :
  rep_ok b → q ≠ player →
  cell b i j = Some card → state card = revealed → controlledBy card = Some q →
  cell (flip row col player b).2 i j = Some card.
Proof.
  intros Hok Hne Hcell Hst Hctl. apply flip_untouched; try done.
  - congruence.
  - intros [_ Hctl']. congruence.
Qed.

Lemma flip_keeps_others_cards_witness :
  cell (flip 1 1 "p2" board_AA_1).2 0 0 = Some (mkCard "A" revealed (Some "p1"))
  ∧ cell (flip 2 1 "p2" board_AA_1).2 0 0 = Some (mkCard "A" revealed (Some "p1")).
Proof.
  assert (Hok : rep_ok board_AA_1) by (apply rep_ok_dec; reflexivity).
  split.
  - apply (flip_keeps_others_cards board_AA_1 1 1 "p2" "p1" 0 0 _ Hok);
      [discriminate | reflexivity | reflexivity | reflexivity].
  - apply (flip_keeps_others_cards board_AA_1 2 1 "p2" "p1" 0 0 _ Hok);
      [discriminate | reflexivity | reflexivity | reflexivity].
Defined.

(** A flip that does not end in a match is invisible to the other players:
    on a well-shaped board, whatever B flips, unless the call returns
    "Match!" the view that [look] gives a different player A is the same
    after the call as before. *)
Theorem flip_invisible_to_others b row col A B res b' :
  rep_ok b → A ≠ B →
  flip row col B b = (Normal res, b') →
  message res ≠ "Match!" →
  look_view A b' = look_view A b.
Proof.
  intros Hok Hne Hflip Hmsg.
  pose proof (revealed_board_cell b (row - 1) (col - 1) B) as Hcell1.
  pose proof (revealed_board_frame b (row - 1) (col - 1) B) as (_ & _ & Hs1).
  pose proof (target_in_scan b (row - 1) (col - 1) B) as Htarget.
  destruct (flip_outcome b row col B Hok)
    as [[msg Hrun]|[(x & Hx & Hdown & _ & Hrun)
                   |(x & st & msg & Hx & Hdown & _ & Hst & Hrun)]];
    rewrite Hrun in Hflip; injection Hflip as <- <-; [done| |].
  - apply grid_fmap_ext; [done|]. intros i j. rewrite (Hcell1 x) by done.
    case_decide as Hij; [|done]. destruct Hij as [-> ->]. rewrite Hx. simpl.
    f_equal. rewrite !look_card_hidden with (B := B); [done | by left |].
    right. by split.
  - destruct Hst as [[-> ->]|[-> ->]]; [done|]. clear Hmsg.
    destruct (for_of_settle_spec face_down
                (scan_grid B (revealed_board b (row - 1) (col - 1) B))
                (revealed_board b (row - 1) (col - 1) B))
      as (_ & _ & _ & Hs & Hcells).
    apply grid_fmap_ext; [congruence|]. intros i j. rewrite Hcells.
    destruct (decide ((i, j) ∈ pos <$> scan_grid B
                                 (revealed_board b (row - 1) (col - 1) B)))
      as [Hin|Hnin].
    + pose proof (scan_held _ _ _ _ Hin) as (card1 & Hcard1 & Hheld).
      rewrite Hcard1. simpl. unfold settle_card. rewrite decide_True by done.
      rewrite (Hcell1 x) in Hcard1 by done.
      case_decide as Hij.
      * destruct Hij as [-> ->]. rewrite Hx. simpl. f_equal.
        rewrite !look_card_hidden with (B := B); [done | by left | by left].
      * rewrite Hcard1. simpl. f_equal.
        rewrite !look_card_hidden with (B := B); [done | by right | by left].
    + rewrite (Hcell1 x) by done. case_decide as Hij.
      * destruct Hij as [-> ->]. exfalso. apply Hnin.
        apply list_elem_of_fmap. exists (mkRevealed (row - 1) (col - 1) (value x)).
        split; [done | by apply Htarget].
      * destruct (cell b i j) as [card|]; [|done]. simpl. f_equal.
        unfold settle_card. by rewrite decide_False.
Qed.

Lemma flip_invisible_to_others_witness :
  look_view "p2" (flip 1 1 "p1" board_AB).2 = look_view "p2" board_AB
  ∧ look_view "p2" (flip 1 2 "p1" board_AB_1).2 = look_view "p2" board_AB_1.
Proof.
  split.
  - eapply (flip_invisible_to_others board_AB 1 1 "p2" "p1");
      [apply rep_ok_dec; reflexivity | discriminate | reflexivity | discriminate].
  - eapply (flip_invisible_to_others board_AB_1 1 2 "p2" "p1");
      [apply rep_ok_dec; reflexivity | discriminate | reflexivity | discriminate].
Defined.

(** ** A pair of flips *)

Lemma two_positions (l : list (Z * Z)) (p q : Z * Z) :
  l ≡ₚ [p; q] → l = [p; q] ∨ l = [q; p].
Proof.
  intros Hperm. pose proof (Permutation_length Hperm) as Hlen.
  destruct l as [|a [|a' [|? ?]]]; try done.
  assert (Ha : a ∈ [p; q]) by (rewrite <- Hperm; apply list_elem_of_here).
  assert (Ha' : a' ∈ [p; q])
    by (rewrite <- Hperm; apply list_elem_of_further, list_elem_of_here).
  assert (Hp : p ∈ [a; a']) by (rewrite Hperm; apply list_elem_of_here).
  assert (Hq : q ∈ [a; a'])
    by (rewrite Hperm; apply list_elem_of_further, list_elem_of_here).
  set_solver.
Qed.

(** The scan entry of a cell is determined by the card in the cell. *)
Lemma scan_entry player b rc :
  rc ∈ scan_grid player b →
  ∃ card, cell b (rev_r rc) (rev_c rc) = Some card
          ∧ rc = mkRevealed (rev_r rc) (rev_c rc) (value card).
Proof.
  intros Hin. apply elem_of_scan_grid in Hin as (_ & _ & card & Hcell & _ & Hv).
  exists card. split; [done|]. destruct rc. simpl in *. by subst.
Qed.

(** The pair rule.  On a well-shaped board where the player holds no card,
    turning up a face-down card returns "Card flipped"; turning up a second,
    different face-down card then returns "Match!" when the two values are
    equal, leaving both cards matched with no controller, and
    "Not a match." otherwise, leaving both face down with no controller.
    No other cell changes, and after a mismatch of two cards that had no
    controller the board is exactly the board before the first flip. *)
Theorem flip_pair b player r1 c1 r2 c2 x y :
  rep_ok b → scan_grid player b = [] →
  cell b (r1 - 1) (c1 - 1) = Some x → state x = face_down →
  cell b (r2 - 1) (c2 - 1) = Some y → state y = face_down →
  ¬ (r1 = r2 ∧ c1 = c2) →
  let st := if decide (value x = value y) then matched else face_down in
  let msg := if decide (value x = value y) then "Match!" else "Not a match." in
  ∃ b1 b2,
    flip r1 c1 player b
    = (Normal (mkFlipResult true "Card flipped" (look_view player b1)), b1)
    ∧ flip r2 c2 player b1
      = (Normal (mkFlipResult true msg (look_view player b2)), b2)
    ∧ cell b2 (r1 - 1) (c1 - 1) = Some (mkCard (value x) st None)
    ∧ cell b2 (r2 - 1) (c2 - 1) = Some (mkCard (value y) st None)
    ∧ (∀ i j, ¬ (i = r1 - 1 ∧ j = c1 - 1) → ¬ (i = r2 - 1 ∧ j = c2 - 1) →
              cell b2 i j = cell b i j)
    ∧ (value x ≠ value y → controlledBy x = None → controlledBy y = None →
       b2 = b).
Proof.
  intros Hok Hnone Hx Hxdown Hy Hydown Hdiff st msg.
  set (b1 := revealed_board b (r1 - 1) (c1 - 1) player).
  set (b11 := revealed_board b1 (r2 - 1) (c2 - 1) player).
  pose proof (revealed_board_frame b (r1 - 1) (c1 - 1) player) as (Hr1 & Hc1 & Hs1).
  pose proof (revealed_board_frame b1 (r2 - 1) (c2 - 1) player) as (Hr11 & Hc11 & Hs11).
  fold b1 in Hr1, Hc1, Hs1. fold b11 in Hr11, Hc11, Hs11.
  assert (Hok1 : rep_ok b1) by (by eapply rep_ok_shape).
  pose proof (λ i j, revealed_board_cell b (r1 - 1) (c1 - 1) player x i j Hx) as Hcell1.
  fold b1 in Hcell1.
  assert (Hy1 : cell b1 (r2 - 1) (c2 - 1) = Some y).
  { rewrite Hcell1. rewrite decide_False; [done | lia]. }
  pose proof (λ i j, revealed_board_cell b1 (r2 - 1) (c2 - 1) player y i j Hy1) as Hcell11.
  fold b11 in Hcell11.
  (* the first flip *)
  pose proof (flip_face_down b r1 c1 player x Hok Hx Hxdown) as Hflip1.
  simpl in Hflip1. fold b1 in Hflip1.
  pose proof (length_scan_grid_revealed_board b _ _ player x Hok Hx Hxdown) as Hlen1.
  fold b1 in Hlen1. rewrite Hnone in Hlen1. simpl in Hlen1.
  rewrite decide_False in Hflip1 by lia.
  (* the second flip *)
  pose proof (flip_face_down b1 r2 c2 player y Hok1 Hy1 Hydown) as Hflip2.
  simpl in Hflip2. fold b11 in Hflip2.
  pose proof (length_scan_grid_revealed_board b1 _ _ player y Hok1 Hy1 Hydown) as Hlen2.
  fold b11 in Hlen2. rewrite Hlen1 in Hlen2.
  rewrite decide_True in Hflip2 by done.
  (* the two entries of the scan *)
  pose proof (scan_grid_revealed_board b _ _ player x Hok Hx Hxdown) as Hperm1.
  pose proof (scan_grid_revealed_board b1 _ _ player y Hok1 Hy1 Hydown) as Hperm2.
  fold b1 in Hperm1. fold b11 in Hperm2.
  rewrite Hnone in Hperm1. change (pos <$> []) with (@nil (Z * Z)) in Hperm1.
  rewrite Hperm1 in Hperm2.
  assert (Hmem : ∀ i j, (i, j) ∈ pos <$> scan_grid player b11
                        ↔ (i = r1 - 1 ∧ j = c1 - 1) ∨ (i = r2 - 1 ∧ j = c2 - 1)).
  { intros i j. rewrite Hperm2. set_solver. }
  assert (Hx11 : cell b11 (r1 - 1) (c1 - 1)
                 = Some (mkCard (value x) revealed (Some player))).
  { rewrite Hcell11. rewrite decide_False by lia.
    rewrite Hcell1. by rewrite decide_True. }
  assert (Hy11 : cell b11 (r2 - 1) (c2 - 1)
                 = Some (mkCard (value y) revealed (Some player))).
  { rewrite Hcell11. by rewrite decide_True. }
  assert (Hsame : same_value (scan_grid player b11 !! 0%nat)
                             (scan_grid player b11 !! 1%nat)
                  = bool_decide (value x = value y)).
  { pose proof (λ rc, scan_entry player b11 rc) as Hentry.
    apply two_positions in Hperm2.
    destruct (scan_grid player b11) as [|e1 [|e2 [|? ?]]]; try done.
    destruct (Hentry e1) as (k1 & Hk1 & He1); [apply list_elem_of_here|].
    destruct (Hentry e2) as (k2 & Hk2 & He2);
      [apply list_elem_of_further, list_elem_of_here|].
    simpl. rewrite He1, He2. simpl.
    destruct Hperm2 as [Hord|Hord]; injection Hord as Hp1 Hp2 Hp3 Hp4;
      rewrite Hp1, Hp2 in Hk1; rewrite Hp3, Hp4 in Hk2.
    - rewrite Hy11 in Hk1. rewrite Hx11 in Hk2.
      injection Hk1 as <-. injection Hk2 as <-. simpl.
      apply bool_decide_ext. split; congruence.
    - rewrite Hx11 in Hk1. rewrite Hy11 in Hk2.
      by injection Hk1 as <-; injection Hk2 as <-. }
  rewrite Hsame in Hflip2.
  assert (Hcells2 : ∀ st' i j,
            cell (settled_board st' (scan_grid player b11) b11) i j
            = if decide (i = r1 - 1 ∧ j = c1 - 1) then Some (mkCard (value x) st' None)
              else if decide (i = r2 - 1 ∧ j = c2 - 1)
                   then Some (mkCard (value y) st' None)
                   else cell b i j).
  { intros st' i j.
    destruct (for_of_settle_spec st' (scan_grid player b11) b11)
      as (_ & _ & _ & _ & ->).
    unfold settle_card.
    destruct (decide (i = r1 - 1 ∧ j = c1 - 1)) as [[-> ->]|Hn1].
    { rewrite Hx11. simpl. rewrite decide_True; [done|]. apply Hmem. by left. }
    destruct (decide (i = r2 - 1 ∧ j = c2 - 1)) as [[-> ->]|Hn2].
    { rewrite Hy11. simpl. rewrite decide_True; [done|]. apply Hmem. by right. }
    rewrite Hcell11. rewrite decide_False by done.
    rewrite Hcell1. rewrite decide_False by done.
    destruct (cell b i j) as [card|]; [|done]. simpl.
    rewrite decide_False; [done|]. rewrite Hmem. tauto. }
  destruct (for_of_settle_spec st (scan_grid player b11) b11)
    as (_ & Hr2 & Hc2 & Hs2 & _).
  exists b1, (settled_board st (scan_grid player b11) b11).
  split_and!.
  - exact Hflip1.
  - unfold st, msg. by destruct (decide (value x = value y));
      [rewrite bool_decide_eq_true_2 in Hflip2 by done
      |rewrite bool_decide_eq_false_2 in Hflip2 by done].
  - rewrite Hcells2. by rewrite decide_True.
  - rewrite Hcells2. rewrite decide_False by lia. by rewrite decide_True.
  - intros i j Hn1 Hn2. rewrite Hcells2. by rewrite !decide_False.
  - intros Hne Hxc Hyc. apply board_ext; try congruence.
    intros i j. rewrite Hcells2. unfold st. rewrite (decide_False (P := value x = value y)) by done.
    destruct (decide (i = r1 - 1 ∧ j = c1 - 1)) as [[-> ->]|Hn1].
    { rewrite Hx. f_equal. destruct x. simpl in *. by subst. }
    destruct (decide (i = r2 - 1 ∧ j = c2 - 1)) as [[-> ->]|Hn2]; [|done].
    rewrite Hy. f_equal. destruct y. simpl in *. by subst.
Qed.

Lemma flip_pair_witness :
  ∃ b1 b2,
    flip 1 1 "p1" board_AB
    = (Normal (mkFlipResult true "Card flipped" (look_view "p1" b1)), b1)
    ∧ flip 1 2 "p1" b1
      = (Normal (mkFlipResult true "Not a match." (look_view "p1" b2)), b2)
    ∧ b2 = board_AB.
Proof.
  destruct (flip_pair board_AB "p1" 1 1 1 2 (face_down_card "A") (face_down_card "B"))
    as (b1 & b2 & Hflip1 & Hflip2 & _ & _ & _ & Hback);
    [apply rep_ok_dec; reflexivity | reflexivity | reflexivity | reflexivity
     | reflexivity | reflexivity | lia |].
  exists b1, b2. split_and!; [done | done |].
  apply Hback; [discriminate | reflexivity | reflexivity].
Defined.

(** ** Construction outcomes, [isValid] and the shape of the views *)

Lemma checkRep_bad_rows b :
  Z.of_nat (length (board b)) ≠ rows b →
  checkRep b = (Thrown "Invalid row count", b).
Proof.
  intros Hbad. unfold checkRep. erewrite bind_Normal by reflexivity.
  by rewrite decide_True.
Qed.

Lemma checkRep_bad_cols b :
  Z.of_nat (length (board b)) = rows b →
  ¬ Forall (λ row : list Card, Z.of_nat (length row) = cols b) (board b) →
  checkRep b = (Thrown "Invalid column count", b).
Proof.
  intros Hrows Hbad. unfold checkRep. erewrite bind_Normal by reflexivity.
  rewrite decide_False by lia.
  by destruct (check_rows_spec (cols b) (board b) b) as [[? _]|[_ ?]].
Qed.

(** When the constructor returns and when it throws.  A negative [rows]
    throws "Invalid row count"; a positive [rows] with a negative [cols]
    throws "Invalid column count"; in every other case, zero rows with a
    negative [cols] included, the board is returned with [rows] rows of
    [max(cols, 0)] cards. *)
Theorem Board_new_outcome sort nrows ncols cards :
  Board_new sort nrows ncols cards
  = (if decide (nrows < 0) then Thrown "Invalid row count"
     else if decide (0 < nrows ∧ ncols < 0) then Thrown "Invalid column count"
     else Normal (mkBoard nrows ncols (fill_board (sort cards) nrows ncols).1))
  ∧ length (fill_board (sort cards) nrows ncols).1 = Z.to_nat nrows
  ∧ Forall (λ row : list Card, length row = Z.to_nat ncols)
           (fill_board (sort cards) nrows ncols).1.
Proof.
  destruct (fill_board_spec (sort cards) nrows ncols) as (Hlen & Hall & _).
  split_and!; [|done|done].
  unfold Board_new. cbv zeta.
  set (b := mkBoard nrows ncols (fill_board (sort cards) nrows ncols).1).
  destruct (decide (nrows < 0)) as [Hneg|Hpos].
  { rewrite checkRep_bad_rows; [done|]. simpl. lia. }
  destruct (decide (0 < nrows ∧ ncols < 0)) as [[Hr Hc]|Hfine].
  - rewrite checkRep_bad_cols; [done | simpl; lia |]. simpl. intros Hcols.
    destruct ((fill_board (sort cards) nrows ncols).1) as [|row grid] eqn:Hgrid;
      [simpl in Hlen; lia|].
    apply Forall_cons in Hcols as [Hrow _]. apply Forall_cons in Hall as [Hrow' _].
    lia.
  - rewrite checkRep_rep_ok; [done|]. split; simpl; [lia|].
    destruct (decide (nrows = 0)) as [->|Hnz].
    + destruct ((fill_board (sort cards) 0 ncols).1); [constructor | done].
    + eapply Forall_impl; [exact Hall|]. simpl. intros row ->. lia.
Qed.

(** [isValid] agrees with the lookups of [flip]: on a well-shaped board it
    answers true exactly at the 0-based coordinates where a card is found,
    it leaves the board alone, and where it answers false the flip at the
    matching 1-based coordinates is rejected as out of bounds. *)
Theorem isValid_spec b r c :
  rep_ok b →
  ∃ valid,
    isValid r c b = (Normal valid, b)
    ∧ (valid = true ↔ is_Some (cell b r c))
    ∧ (valid = false →
       ∀ player, ∃ msg,
         flip (r + 1) (c + 1) player b
         = (Normal (mkFlipResult false msg (look_view player b)), b)
         ∧ (msg = "Row out of bounds" ∨ msg = "Column out of bounds")).
Proof.
  intros Hok. eexists. split; [reflexivity|].
  assert (Hvalid : (0 <=? r) && (r <? rows b) && (0 <=? c) && (c <? cols b) = true
                   ↔ is_Some (cell b r c)).
  { rewrite cell_in_bounds by done. rewrite !andb_true_iff.
    rewrite !Z.leb_le, !Z.ltb_lt. lia. }
  split; [done|]. intros Hfalse player.
  assert (Hnone : cell b r c = None).
  { apply eq_None_not_Some. intros Hsome. apply Hvalid in Hsome. congruence. }
  unfold cell in Hnone.
  destruct (at_index (board b) r) as [rowArr|] eqn:Hrow.
  - exists "Column out of bounds". split; [|by right].
    apply (flip_card_undefined _ _ _ _ rowArr).
    + by replace (r + 1 - 1) with r by lia.
    + by replace (c + 1 - 1) with c by lia.
  - exists "Row out of bounds". split; [|by left].
    apply flip_row_undefined. by replace (r + 1 - 1) with r by lia.
Qed.

Lemma isValid_spec_witness :
  isValid 1 0 board_AA = (Normal true, board_AA)
  ∧ isValid 0 1 board_AA = (Normal false, board_AA)
  ∧ ∃ msg, flip 1 2 "p1" board_AA
           = (Normal (mkFlipResult false msg (look_view "p1" board_AA)), board_AA).
Proof.
  assert (Hok : rep_ok board_AA) by (apply rep_ok_dec; reflexivity).
  split_and!; [reflexivity | reflexivity |].
  destruct (isValid_spec board_AA 0 1 Hok) as (valid & Hrun & _ & Hflip).
  injection Hrun as <-.
  destruct (Hflip eq_refl "p1") as (msg & Hmsg & _). by exists msg.
Defined.

(** The views have the dimensions of the board: on a well-shaped board
    [look] and [map] return [rows] rows of [cols] entries, and an entry
    exists exactly at the 0-based coordinates inside these bounds. *)
Theorem views_shape b player :
  rep_ok b →
  Z.of_nat (length (look_view player b)) = rows b
  ∧ Forall (λ row : list PublicCard, Z.of_nat (length row) = cols b)
           (look_view player b)
  ∧ Z.of_nat (length (map_view b)) = rows b
  ∧ Forall (λ row : list PublicCard, Z.of_nat (length row) = cols b) (map_view b)
  ∧ (∀ i j, is_Some (view_cell (look_view player b) i j)
            ↔ 0 ≤ i < rows b ∧ 0 ≤ j < cols b)
  ∧ (∀ i j, is_Some (view_cell (map_view b) i j)
            ↔ 0 ≤ i < rows b ∧ 0 ≤ j < cols b).
Proof.
  intros Hok.
  destruct (shape_views (look_card player) b Hok) as [Hl1 Hl2].
  destruct (shape_views map_card b Hok) as [Hm1 Hm2].
  split_and!; try done.
  - intros i j. unfold look_view. rewrite view_cell_fmap, fmap_is_Some.
    by apply cell_in_bounds.
  - intros i j. unfold map_view. rewrite view_cell_fmap, fmap_is_Some.
    by apply cell_in_bounds.
Qed.

Lemma views_shape_witness :
  Z.of_nat (length (look_view "p2" board_AB_1)) = 1
  ∧ Forall (λ row : list PublicCard, Z.of_nat (length row) = 2)
           (look_view "p2" board_AB_1).
Proof.
  destruct (views_shape board_AB_1 "p2") as (Hrows & Hcols & _);
    [apply rep_ok_dec; reflexivity|].
  by split.
Defined.

(** ** The command [map] *)

Lemma map_cell_spec f r c b :
  ∃ b', Commands.map_cell f r c b = (Normal (), b')
    ∧ rows b' = rows b ∧ cols b' = cols b ∧ shape b' = shape b
    ∧ ∀ i j, cell b' i j
             = (λ card, if decide (i = r ∧ j = c) then replaced f card else card)
               <$> cell b i j.
Proof.
  assert (Hsame : ∀ card0, cell b r c = Some card0 → replaced f card0 = card0 →
            ∀ i j, cell b i j
                   = (λ card, if decide (i = r ∧ j = c) then replaced f card else card)
                     <$> cell b i j).
  { intros card0 Hcard0 Hid i j. destruct (cell b i j) as [card|] eqn:Hcell; [|done].
    simpl. f_equal. case_decide as Hij; [|done]. destruct Hij as [-> ->]. congruence. }
  assert (Hnone : cell b r c = None →
            ∀ i j, cell b i j
                   = (λ card, if decide (i = r ∧ j = c) then replaced f card else card)
                     <$> cell b i j).
  { intros Hcell0 i j. destruct (cell b i j) as [card|] eqn:Hcell; [|done].
    simpl. f_equal. case_decide as Hij; [|done]. destruct Hij as [-> ->]. congruence. }
  unfold Commands.map_cell. erewrite bind_Normal by reflexivity.
  destruct (at_index (board b) r) as [rowArr|] eqn:Hrow.
  2:{ exists b. split_and!; try done. apply Hnone. unfold cell. by rewrite Hrow. }
  destruct (at_index rowArr c) as [card0|] eqn:Hcard0.
  2:{ exists b. split_and!; try done. apply Hnone. unfold cell. by rewrite Hrow. }
  assert (Hcell0 : cell b r c = Some card0) by (apply cell_Some; eauto).
  case_decide as Hst.
  { exists b. split_and!; try done. apply (Hsame card0 Hcell0).
    unfold replaced. by rewrite decide_True. }
  exists (write_card r c rowArr
            (mkCard (f (value card0)) (state card0) (controlledBy card0)) b).2.
  split_and!; try done; try (by apply write_card_shape).
  intros i j. rewrite (write_card_cell _ _ _ _ card0) by done.
  case_decide as Hij.
  - destruct Hij as [-> ->]. rewrite Hcell0. simpl. f_equal.
    unfold replaced. by rewrite decide_False.
  - by destruct (cell b i j).
Qed.

Lemma map_cols_spec f r (lc : list Z) b :
  NoDup lc →
  ∃ b', for_of lc (λ c, Commands.map_cell f r c) b = (Normal (), b')
    ∧ rows b' = rows b ∧ cols b' = cols b ∧ shape b' = shape b
    ∧ ∀ i j, cell b' i j
             = (λ card, if decide (i = r ∧ j ∈ lc) then replaced f card else card)
               <$> cell b i j.
Proof.
  intros Hnodup. revert b. induction Hnodup as [|c lc Hnin _ IH]; intros b.
  - exists b. split_and!; try done. intros i j.
    destruct (cell b i j) as [card|]; [|done]. simpl. f_equal.
    rewrite decide_False; [done|]. intros [_ Hin]. by apply not_elem_of_nil in Hin.
  - destruct (map_cell_spec f r c b) as (b1 & Hrun1 & Hr1 & Hc1 & Hs1 & Hcells1).
    destruct (IH b1) as (b' & Hrun & Hr & Hc & Hs & Hcells).
    exists b'. split_and!; try congruence.
    + change (for_of (c :: lc) ?body) with (body c ;; for_of lc body).
      by erewrite bind_Normal by exact Hrun1.
    + intros i j. rewrite Hcells, Hcells1.
      destruct (cell b i j) as [card|]; [|done]. simpl. f_equal.
      rewrite (decide_ext (i = r ∧ j ∈ c :: lc)
                 ((i = r ∧ j = c) ∨ (i = r ∧ j ∈ lc))) by set_solver.
      destruct (decide (i = r ∧ j = c)) as [[-> ->]|Hn1].
      * rewrite decide_False by naive_solver. by rewrite decide_True by naive_solver.
      * destruct (decide (i = r ∧ j ∈ lc)) as [Hin|Hn2].
        -- by rewrite decide_True by naive_solver.
        -- by rewrite decide_False by naive_solver.
Qed.

Lemma map_rows_spec f (lr lc : list Z) b :
  NoDup lr → NoDup lc →
  ∃ b', for_of lr (λ r, for_of lc (λ c, Commands.map_cell f r c)) b = (Normal (), b')
    ∧ rows b' = rows b ∧ cols b' = cols b ∧ shape b' = shape b
    ∧ ∀ i j, cell b' i j
             = (λ card, if decide (i ∈ lr ∧ j ∈ lc) then replaced f card else card)
               <$> cell b i j.
Proof.
  intros Hnodup Hlc. revert b. induction Hnodup as [|r lr Hnin _ IH]; intros b.
  - exists b. split_and!; try done. intros i j.
    by destruct (cell b i j) as [card|].
  - destruct (map_cols_spec f r lc b Hlc) as (b1 & Hrun1 & Hr1 & Hc1 & Hs1 & Hcells1).
    destruct (IH b1) as (b' & Hrun & Hr & Hc & Hs & Hcells).
    exists b'. split_and!; try congruence.
    + change (for_of (r :: lr) ?body) with (body r ;; for_of lr body).
      by erewrite bind_Normal by exact Hrun1.
    + intros i j. rewrite Hcells, Hcells1.
      destruct (cell b i j) as [card|]; [|done]. simpl. f_equal.
      rewrite (decide_ext (i ∈ r :: lr ∧ j ∈ lc)
                 ((i = r ∧ j ∈ lc) ∨ (i ∈ lr ∧ j ∈ lc))) by set_solver.
      destruct (decide (i = r ∧ j ∈ lc)) as [[-> Hj]|Hn1].
      * rewrite decide_False by naive_solver. by rewrite decide_True by naive_solver.
      * destruct (decide (i ∈ lr ∧ j ∈ lc)) as [Hin|Hn2].
        -- by rewrite decide_True by naive_solver.
        -- by rewrite decide_False by naive_solver.
Qed.

(** The board that the command [map] leaves. *)
Lemma Commands_map_run playerId f b :
  rep_ok b →
  ∃ b', Commands.map playerId f b = (Normal (look_view playerId b'), b')
    ∧ rows b' = rows b ∧ cols b' = cols b ∧ shape b' = shape b
    ∧ ∀ i j, cell b' i j = replaced f <$> cell b i j.
Proof.
  intros Hok.
  destruct (map_rows_spec f (seqZ 0 (rows b)) (seqZ 0 (cols b)) b)
    as (b' & Hrun & Hr & Hc & Hs & Hcells); [apply NoDup_seqZ | apply NoDup_seqZ |].
  exists b'. split_and!; try done.
  - unfold Commands.map. erewrite bind_Normal by reflexivity.
    by erewrite bind_Normal by exact Hrun.
  - intros i j. rewrite Hcells.
    destruct (cell b i j) as [card|] eqn:Hcell; [|done]. simpl. f_equal.
    rewrite decide_True; [done|].
    pose proof (proj1 (cell_in_bounds b i j Hok) (mk_is_Some _ _ Hcell)).
    rewrite !elem_of_seqZ. lia.
Qed.

Lemma replaced_fields f card :
  state (replaced f card) = state card
  ∧ controlledBy (replaced f card) = controlledBy card
  ∧ value (replaced f card)
    = (if decide (state card = matched) then value card else f (value card)).
Proof. unfold replaced. by case_decide. Qed.



(** Two [map] commands in a row are one: on a well-shaped board, mapping
    with [f] and then with [g] leaves the same board and returns the same
    view as mapping once with the composition; mapping with the identity
    changes nothing. *)
Theorem Commands_map_compose playerId f g b :
  rep_ok b →
  (Commands.map playerId f ;; Commands.map playerId g) b
  = Commands.map playerId (g ∘ f) b
  ∧ Commands.map playerId (λ v, v) b = (Normal (look_view playerId b), b).
Proof.
  intros Hok.
  destruct (Commands_map_run playerId f b Hok) as (b1 & Hrun1 & Hr1 & Hc1 & Hs1 & Hcells1).
  assert (Hok1 : rep_ok b1) by (by eapply rep_ok_shape).
  destruct (Commands_map_run playerId g b1 Hok1) as (b2 & Hrun2 & Hr2 & Hc2 & Hs2 & Hcells2).
  destruct (Commands_map_run playerId (g ∘ f) b Hok) as (b3 & Hrun3 & Hr3 & Hc3 & Hs3 & Hcells3).
  destruct (Commands_map_run playerId (λ v, v) b Hok) as (b4 & Hrun4 & Hr4 & Hc4 & Hs4 & Hcells4).
  split.
  - erewrite bind_Normal by exact Hrun1. rewrite Hrun2, Hrun3.
    assert (b2 = b3) as ->; [|done].
    apply board_ext; try congruence.
    intros i j. rewrite Hcells2, Hcells1, Hcells3.
    destruct (cell b i j) as [card|]; [|done]. simpl. f_equal.
    unfold replaced. simpl. destruct card as [v st ctl]. simpl.
    by repeat case_decide.
  - rewrite Hrun4. assert (b4 = b) as ->; [|done].
    apply board_ext; try done.
    intros i j. rewrite Hcells4.
    destruct (cell b i j) as [card|]; [|done]. simpl. f_equal.
    unfold replaced. destruct card. by case_decide.
Qed.

Lemma Commands_map_compose_witness :
  (Commands.map "p1" (λ v, v +:+ "!") ;; Commands.map "p1" (λ v, v +:+ "?")) board_AA_1
  = Commands.map "p1" ((λ v, v +:+ "?") ∘ (λ v, v +:+ "!")) board_AA_1.
Proof.
  apply (Commands_map_compose "p1" (λ v, v +:+ "!") (λ v, v +:+ "?") board_AA_1).
  apply rep_ok_dec. reflexivity.
Defined.

(** ** Flips after a [map] command *)

Lemma cell_mapped f b i j : cell (mapped f b) i j = replaced f <$> cell b i j.
Proof.
  unfold cell, mapped. simpl. rewrite at_index_fmap.
  destruct (at_index (board b) i) as [row|]; simpl; [|done].
  apply at_index_fmap.
Qed.

Lemma shape_mapped f b : shape (mapped f b) = shape b.
Proof.
  unfold shape, mapped. simpl. rewrite <- list_fmap_compose.
  apply list_fmap_ext. intros _ row _. simpl. apply length_fmap.
Qed.

Lemma rep_ok_mapped f b : rep_ok b → rep_ok (mapped f b).
Proof. apply rep_ok_shape; [done | done | apply shape_mapped]. Qed.

Lemma Commands_map_mapped playerId f b :
  rep_ok b →
  Commands.map playerId f b
  = (Normal (look_view playerId (mapped f b)), mapped f b).
Proof.
  intros Hok.
  destruct (Commands_map_run playerId f b Hok) as (b' & -> & Hr & Hc & Hs & Hcells).
  assert (b' = mapped f b) as ->; [|done].
  apply board_ext; [done | done | by rewrite shape_mapped |].
  intros i j. by rewrite Hcells, cell_mapped.
Qed.

Lemma fmap_bind_list {A B C : Type} (h : B → C) (k : A → list B) (l : list A) :
  h <$> (l ≫= k) = l ≫= (λ x, h <$> k x).
Proof.
  induction l as [|x l IH]; [done|].
  by rewrite !bind_cons, fmap_app, IH.
Qed.

Lemma scan_row_mapped f player rr (row : list Card) ncols :
  scan_row player rr (replaced f <$> row) ncols
  = mapped_entry f <$> scan_row player rr row ncols.
Proof.
  unfold scan_row. rewrite fmap_bind_list. apply list_bind_ext; [|done].
  intros cc. rewrite at_index_fmap.
  destruct (at_index row cc) as [check|]; simpl; [|done].
  destruct (replaced_fields f check) as (Hst & Hctl & Hval).
  rewrite (decide_ext _ (state check = revealed ∧ controlledBy check = Some player))
    by (by rewrite Hst, Hctl).
  repeat case_decide; try done; try (destruct_and!; congruence).
  simpl. unfold mapped_entry. simpl. by rewrite Hval.
Qed.

Lemma scan_grid_mapped f player b :
  scan_grid player (mapped f b) = mapped_entry f <$> scan_grid player b.
Proof.
  unfold scan_grid. rewrite fmap_bind_list. apply list_bind_ext; [|done].
  intros rr. unfold mapped. simpl. rewrite at_index_fmap.
  destruct (at_index (board b) rr) as [row|]; simpl; [|done].
  apply scan_row_mapped.
Qed.

Lemma revealed_board_mapped f b r c player x :
  cell b r c = Some x → state x = face_down →
  revealed_board (mapped f b) r c player = mapped f (revealed_board b r c player).
Proof.
  intros Hx Hdown.
  pose proof (revealed_board_frame b r c player) as (Hr & Hc & Hs).
  pose proof (revealed_board_frame (mapped f b) r c player) as (Hr' & Hc' & Hs').
  assert (Hx' : cell (mapped f b) r c = Some (replaced f x))
    by (by rewrite cell_mapped, Hx).
  apply board_ext.
  - by rewrite Hr'.
  - by rewrite Hc'.
  - by rewrite Hs', !shape_mapped.
  - intros i j. rewrite cell_mapped.
    rewrite (revealed_board_cell _ _ _ _ (replaced f x)) by done.
    rewrite (revealed_board_cell _ _ _ _ x) by done.
    case_decide; [|by rewrite cell_mapped].
    f_equal. destruct (replaced_fields f x) as (_ & _ & ->).
    rewrite decide_False by congruence. reflexivity.
Qed.

Lemma same_value_mapped f `{!Inj (=) (=) f} (e1 e2 : option Revealed) :
  same_value (mapped_entry f <$> e1) (mapped_entry f <$> e2) = same_value e1 e2.
Proof.
  destruct e1 as [e1|], e2 as [e2|]; try done. simpl.
  apply bool_decide_ext. split; [apply (inj f) | congruence].
Qed.

(** Renaming the cards does not change the game: after a [map] command
    with an injective [f] on a well-shaped board, every flip returns the
    same success flag and the same message as it would have without the
    command, and leaves every cell in the same state with the same
    controller. *)
Theorem flip_after_injective_map playerId f b view bm row col player :
  rep_ok b → Inj (=) (=) f →
  Commands.map playerId f b = (Normal view, bm) →
  ∃ res b1 res' bm1,
    flip row col player b = (Normal res, b1)
    ∧ flip row col player bm = (Normal res', bm1)
    ∧ success res' = success res ∧ message res' = message res
    ∧ ∀ i j, state <$> cell bm1 i j = state <$> cell b1 i j
             ∧ controlledBy <$> cell bm1 i j = controlledBy <$> cell b1 i j.
Proof.
  intros Hok Hinj Hmap. rewrite Commands_map_mapped in Hmap by done.
  injection Hmap as _ <-.
  assert (Hlayout : ∀ b0 i j,
            state <$> cell (mapped f b0) i j = state <$> cell b0 i j
            ∧ controlledBy <$> cell (mapped f b0) i j = controlledBy <$> cell b0 i j).
  { intros b0 i j. rewrite cell_mapped. destruct (cell b0 i j) as [card|]; [|done].
    simpl. destruct (replaced_fields f card) as (-> & -> & _). done. }
  destruct (at_index (board b) (row - 1)) as [rowArr|] eqn:Hrow.
  2:{ eexists _, _, _, _. split; [by apply flip_row_undefined|].
      split.
      { apply flip_row_undefined.
        unfold mapped. simpl. by rewrite at_index_fmap, Hrow. }
      split_and!; try done; apply Hlayout. }
  destruct (at_index rowArr (col - 1)) as [x|] eqn:Hcard.
  2:{ eexists _, _, _, _. split; [by eapply flip_card_undefined|].
      split.
      { eapply flip_card_undefined.
        - unfold mapped. simpl. by rewrite at_index_fmap, Hrow.
        - by rewrite at_index_fmap, Hcard. }
      split_and!; try done; apply Hlayout. }
  assert (Hx : cell b (row - 1) (col - 1) = Some x) by (apply cell_Some; eauto).
  assert (Hx' : cell (mapped f b) (row - 1) (col - 1) = Some (replaced f x))
    by (by rewrite cell_mapped, Hx).
  destruct (replaced_fields f x) as (Hst & _ & _).
  destruct (decide (state x = face_down)) as [Hdown|Hup].
  2:{ eexists _, _, _, _. split; [by eapply flip_cannot|].
      split; [eapply flip_cannot; [done | congruence]|].
      split_and!; try done; apply Hlayout. }
  rewrite (flip_face_down b row col player x) by done.
  rewrite (flip_face_down (mapped f b) row col player (replaced f x))
    by (try apply rep_ok_mapped; congruence).
  cbv zeta. rewrite (revealed_board_mapped f b _ _ player x) by done.
  set (b1 := revealed_board b (row - 1) (col - 1) player).
  rewrite scan_grid_mapped. set (found := scan_grid player b1).
  rewrite length_fmap, !list_lookup_fmap, (@same_value_mapped f Hinj).
  assert (Hsettled : ∀ st i j,
            state <$> cell (settled_board st (mapped_entry f <$> found) (mapped f b1)) i j
            = state <$> cell (settled_board st found b1) i j
            ∧ controlledBy <$> cell (settled_board st (mapped_entry f <$> found)
                                       (mapped f b1)) i j
              = controlledBy <$> cell (settled_board st found b1) i j).
  { intros st i j.
    destruct (for_of_settle_spec st (mapped_entry f <$> found) (mapped f b1))
      as (_ & _ & _ & _ & ->).
    destruct (for_of_settle_spec st found b1) as (_ & _ & _ & _ & ->).
    rewrite cell_mapped. destruct (cell b1 i j) as [card|]; [|done]. simpl.
    unfold settle_card. rewrite <- list_fmap_compose.
    change (pos ∘ mapped_entry f) with pos.
    destruct (replaced_fields f card) as (Hs & Hc & _).
    case_decide; simpl; [done|]. by rewrite Hs, Hc. }
  case_decide; [destruct (same_value _ _)|].
  - eexists _, _, _, _. split; [done|]. split; [done|].
    split_and!; try done; apply Hsettled.
  - eexists _, _, _, _. split; [done|]. split; [done|].
    split_and!; try done; apply Hsettled.
  - eexists _, _, _, _. split; [done|]. split; [done|].
    split_and!; try done; apply Hlayout.
Qed.

Lemma flip_after_injective_map_witness :
  ∃ res b1 res' bm1,
    flip 2 1 "p1" board_AA_1 = (Normal res, b1)
    ∧ flip 2 1 "p1" (mapped (λ v, "x" +:+ v) board_AA_1) = (Normal res', bm1)
    ∧ message res' = message res.
Proof.
  destruct (flip_after_injective_map "p2" (λ v, "x" +:+ v) board_AA_1
              (look_view "p2" (mapped (λ v, "x" +:+ v) board_AA_1))
              (mapped (λ v, "x" +:+ v) board_AA_1) 2 1 "p1")
    as (res & b1 & res' & bm1 & Hflip & Hflip' & _ & Hmsg & _);
    [apply rep_ok_dec; reflexivity
    | intros v w Hvw; simpl in Hvw; by injection Hvw
    | reflexivity |].
  by exists res, b1, res', bm1.
Defined.

(** ** A new board, and what [flip] returns *)

(** A new board shows nothing: whenever the constructor returns, no player
    holds a card, and at every cell both [look], for every player, and
    [map] report no value and state face down. *)
Theorem Board_new_hides_everything sort nrows ncols cards b :
  Board_new sort nrows ncols cards = Normal b →
  ∀ player,
    scan_grid player b = []
    ∧ ∀ i j, 0 ≤ i < nrows → 0 ≤ j < ncols →
        view_cell (look_view player b) i j = Some (mkPublicCard None face_down None)
        ∧ view_cell (map_view b) i j = Some (mkPublicCard None face_down None).
Proof.
  intros Hnew player.
  pose proof (Board_new_grid _ _ _ _ _ Hnew) as [Hb Hok].
  assert (Hfresh : ∀ i j card, cell b i j = Some card →
                     state card = face_down ∧ controlledBy card = None).
  { apply grid_Forall_cell. rewrite Hb. simpl. apply fill_board_fresh. }
  split.
  - destruct (scan_grid player b) as [|rc rest] eqn:Hscan; [done|].
    assert (Hin : rc ∈ scan_grid player b) by (rewrite Hscan; apply list_elem_of_here).
    apply elem_of_scan_grid in Hin as (_ & _ & card & Hcell & [Hrev _] & _).
    destruct (Hfresh _ _ _ Hcell) as [Hdown _]. congruence.
  - intros i j Hi Hj.
    destruct (proj2 (cell_in_bounds b i j Hok)) as [card Hcell];
      [rewrite Hb; simpl; lia|].
    destruct (Hfresh _ _ _ Hcell) as [Hdown Hctl].
    unfold look_view, map_view. rewrite !view_cell_fmap, Hcell. simpl. split; f_equal.
    + apply look_card_cases. by left.
    + by apply map_card_cases.
Qed.

Lemma Board_new_hides_everything_witness :
  view_cell (look_view "p1" board_AA) 1 0 = Some (mkPublicCard None face_down None)
  ∧ view_cell (map_view board_AA) 1 0 = Some (mkPublicCard None face_down None).
Proof.
  destruct (Board_new_hides_everything (λ l, l) 2 1 ["A"; "A"] board_AA eq_refl "p1")
    as [_ Hviews].
  apply (Hviews 1 0); lia.
Defined.

(** What [flip] returns describes what it did: on a well-shaped board the
    returned view is the caller's [look] view of the board the call leaves,
    and the board is changed exactly when [success] is true. *)
Theorem flip_reports_its_effect b row col player :
  rep_ok b →
  ∃ res b',
    flip row col player b = (Normal res, b')
    ∧ boardView res = look_view player b'
    ∧ (success res = false → b' = b)
    ∧ (success res = true → b' ≠ b).
Proof.
  intros Hok.
  pose proof (λ x i j Hx, revealed_board_cell b (row - 1) (col - 1) player x i j Hx)
    as Hcell1.
  destruct (flip_outcome b row col player Hok)
    as [[msg ->]|[(x & Hx & Hdown & _ & ->)|(x & st & msg & Hx & Hdown & Hlen & Hst & ->)]].
  - eexists _, _. split; [done|]. by split_and!.
  - eexists _, _. split; [done|]. split_and!; try done.
    intros _ Heq. pose proof (Hcell1 x (row - 1) (col - 1) Hx) as Hnew.
    rewrite Heq, Hx, decide_True in Hnew by done. injection Hnew as Hnew.
    rewrite Hnew in Hdown. done.
  - eexists _, _. split; [done|]. split_and!; try done.
    intros _ Heq.
    set (b1 := revealed_board b (row - 1) (col - 1) player) in *.
    pose proof (NoDup_scan_grid player b1) as Hnodup.
    pose proof (target_in_scan b _ _ player x Hok Hx) as Htarget. fold b1 in Htarget.
    pose proof (λ rc, scan_entry player b1 rc) as Hentry.
    pose proof (λ rc, proj1 (elem_of_scan_grid player b1 rc)) as Hscan.
    pose proof (λ rc card, settled_board_found st (scan_grid player b1) b1 rc card)
      as Hsettled.
    rewrite Heq in Hsettled.
    destruct (scan_grid player b1) as [|e1 [|e2 [|? ?]]] eqn:Hfound; try done.
    change (NoDup [pos e1; pos e2]) in Hnodup.
    apply NoDup_cons in Hnodup as [Hne _].
    assert (Hother : ∃ e, e ∈ [e1; e2] ∧ pos e ≠ (row - 1, col - 1)).
    { destruct (decide (pos e1 = (row - 1, col - 1))) as [He1|He1].
      - exists e2. split; [set_solver|]. intros He2. apply Hne.
        rewrite He1, <- He2. apply list_elem_of_here.
      - exists e1. split; [set_solver | done]. }
    destruct Hother as (e & Hin & Hpos).
    destruct (Hscan e Hin) as (_ & _ & card & Hcard & [Hrev _] & _).
    pose proof (Hsettled e card Hin Hcard) as Hafter.
    unfold b1 in Hcard. rewrite (Hcell1 x) in Hcard by done.
    rewrite decide_False in Hcard by (intros [Hr Hc]; apply Hpos; unfold pos; congruence).
    rewrite Hcard in Hafter. injection Hafter as Hafter.
    rewrite Hafter in Hrev. simpl in Hrev.
    destruct Hst as [[-> _]|[-> _]]; done.
Qed.

Lemma flip_reports_its_effect_witness :
  ∃ res b',
    flip 1 2 "p1" board_AB_1 = (Normal res, b')
    ∧ boardView res = look_view "p1" b'.
Proof.
  destruct (flip_reports_its_effect board_AB_1 1 2 "p1")
    as (res & b' & Hflip & Hview & _); [apply rep_ok_dec; reflexivity|].
  by exists res, b'.
Defined.
